(** * looks-same: the comparison engine of [index.js]

    A shallow embedding of [index.js] and the properties of its comparator
    pipeline, of the diff-image builder with its single-pixel noise filter,
    of the bounding-box calculator and of the four exported operations. *)

From Stdlib Require Import ZArith QArith Lia Bool.
From stdpp Require Import base option list gmap strings.

Local Open Scope Z_scope.

(** ** JavaScript values *)

(** A JS number: an exact finite value or one of the IEEE specials.  Every
    finite double is a rational and [<] on doubles is exact, so comparisons
    on this type are the comparisons the program performs. *)
Inductive number : Type :=
| NaN
| NegInfinity
| Finite (q : Q)
| Infinity.

Definition Qltb (a b : Q) : bool :=
  Qnum a * QDen b <? Qnum b * QDen a.

(** [a < b] on numbers; every comparison with [NaN] is false. *)
Definition num_lt (a b : number) : bool :=
  match a, b with
  | NaN, _ | _, NaN => false
  | NegInfinity, NegInfinity => false
  | NegInfinity, _ => true
  | Finite _, NegInfinity => false
  | Finite x, Finite y => Qltb x y
  | Finite _, Infinity => true
  | Infinity, _ => false
  end.

Definition loc := positive.

Inductive value : Type :=
| VUndefined
| VNull
| VBool (b : bool)
| VNum (n : number)
| VStr (s : string)
| VObj (l : loc).

(** ToBoolean, as applied by [if (opts.strict)] and [opts.strict ? _ : _]. *)
Definition truthy (v : value) : bool :=
  match v with
  | VUndefined | VNull => false
  | VBool b => b
  | VNum NaN => false
  | VNum (Finite q) => negb (Qnum q =? 0)
  | VNum _ => true
  | VStr s => negb (String.eqb s "")
  | VObj _ => true
  end.

(** The engine's conversion of a string to a number (StringToNumber of
    ECMA-262): the double that the string denotes, [NaN] when it denotes
    none. *)
Class Engine : Type := {
  StringToNumber : string → number
}.

(** ToNumber, as applied to the right operand of
    [colorDiff.diff(lab1, lab2) < tolerance].  An object here is a plain
    options object, whose primitive is no numeral. *)
Definition to_number {JS : Engine} (v : value) : number :=
  match v with
  | VNum n => n
  | VBool true => Finite 1
  | VBool false | VNull => Finite 0
  | VStr s => StringToNumber s
  | VUndefined | VObj _ => NaN
  end.

(** [const JND = 2.3]: the double that the literal denotes, which is
    2589569785738035 / 2^50. *)
Definition JND : number := Finite (2589569785738035 # 1125899906842624).

(** ** Colors and pixel data *)

Record Color : Type := mkColor { R : Z; G : Z; B : Z }.

(** The object handed to a comparator: [{color1, color2}] in this file;
    [position] is the coordinate a raster scan adds to it, if any. *)
Record Data : Type := mkData {
  color1 : Color;
  color2 : Color;
  position : option (Z * Z)
}.

Definition Comparator : Type := Data → bool.

(** Modelled from the spec: [lib/same-colors] is not part of the sources at
    hand; the exact-match comparator is "true iff all channels equal". *)
Definition areColorsSame : Comparator := λ data,
  (R (color1 data) =? R (color2 data)) &&
  (G (color1 data) =? G (color2 data)) &&
  (B (color1 data) =? B (color2 data)).

(** ** The color-diff package and the perceptual comparator *)

(** Calls to [colorDiff.rgb_to_lab] are logged so that the order of
    evaluation inside the perceptual comparator can be stated. *)
Definition Logged (A : Type) : Type := A * list Color.

#[global] Instance Logged_ret : MRet Logged := λ A a, (a, []).

#[global] Instance Logged_bind : MBind Logged := λ A B k m,
  let (a, l1) := m in let (b, l2) := k a in (b, l1 ++ l2).

(** The interface of the [color-diff] package that [index.js] uses: the
    Lab color type, the sRGB to Lab conversion and the CIEDE2000 distance. *)
Class ColorDiff : Type := {
  Lab : Type;
  rgb_to_lab : Color → Lab;
  diff : Lab → Lab → number
}.

Definition call_rgb_to_lab {CD : ColorDiff} (c : Color) : Logged Lab :=
  (rgb_to_lab c, [c]).

(** [doColorsLookSame], the closure returned by
    [makeCIEDE2000Comparator(tolerance)], with its conversions logged. *)
Definition doColorsLookSame {CD : ColorDiff} {JS : Engine} (tolerance : value) (data : Data)
  : Logged bool :=
  if areColorsSame data then mret true
  else
    lab1 ← call_rgb_to_lab (color1 data);
    lab2 ← call_rgb_to_lab (color2 data);
    mret (num_lt (diff lab1 lab2) (to_number tolerance)).

Definition makeCIEDE2000Comparator {CD : ColorDiff} {JS : Engine} (tolerance : value) : Comparator :=
  λ data, fst (doColorsLookSame tolerance data).

(** ** Rasters *)

(** The raster abstraction of [lib/png] as [index.js] reads it. *)
Record PNG : Type := mkPNG {
  width : Z;
  height : Z;
  getPixel : Z → Z → Color
}.

(** One [setPixel(x, y, color, alpha)] call; [alpha] is [None] when the
    call passes three arguments. *)
Record SetPixelCall : Type := mkCall {
  call_x : Z;
  call_y : Z;
  call_color : Color;
  call_alpha : option Z
}.

#[global] Instance Color_eq_dec : EqDecision Color.
Proof. solve_decision. Defined.

#[global] Instance SetPixelCall_eq_dec : EqDecision SetPixelCall.
Proof. solve_decision. Defined.

(** The raster under construction: [png.empty(width, height)] followed by
    the [setPixel] calls made on it, most recent first. *)
Record Canvas : Type := mkCanvas {
  canvas_width : Z;
  canvas_height : Z;
  calls : list SetPixelCall
}.

Definition png_empty (w h : Z) : Canvas := mkCanvas w h [].

Definition setPixel (x y : Z) (color : Color) (alpha : option Z) (c : Canvas)
  : Canvas :=
  mkCanvas (canvas_width c) (canvas_height c) (mkCall x y color alpha :: calls c).

(** What the canvas shows at a coordinate: the most recent call there. *)
Definition rendered (c : Canvas) (x y : Z) : option (Color * option Z) :=
  (λ k, (call_color k, call_alpha k)) <$>
  List.find (λ k, (call_x k =? x) && (call_y k =? y)) (calls c).

(** ** JS arrays of row flags *)

(** [prevPrevRow], [prevRow] and [currentRow] are arrays that only ever
    receive [true]: the set of keys holding [true], and [length]. *)
Record Row : Type := mkRow {
  flags : gset Z;
  len : Z
}.

(** [[]] *)
Definition emptyRow : Row := mkRow ∅ 0.

(** [row[x] = true]; an index at or past [length] extends the array. *)
Definition setTrue (x : Z) (r : Row) : Row :=
  mkRow ({[x]} ∪ flags r) (if 0 <=? x then Z.max (len r) (x + 1) else len r).

(** [row[x] === true] *)
Definition isTrue (r : Row) (x : Z) : bool := bool_decide (x ∈ flags r).

(** ** iterateRect *)

Section IterateRect.

Context {St Res : Type}.
Variable width height : Z.
Variable callback : Z → Z → St → St.
Variable rowDoneCallback : Z → bool → St → St.
Variable endCallback : St → Res.

(** [processRow(y)]: each recursive call is one [setImmediate] task;
    [None] when the given number of tasks does not reach [endCallback]. *)
Fixpoint processRow (tasks : nat) (y : Z) (s : St) : option Res :=
  match tasks with
  | O => None
  | S tasks' =>
      let s := foldl (λ s x, callback x y s) s (seqZ 0 width) in
      let isLastRow := bool_decide (y >= height) in
      let s := rowDoneCallback y isLastRow s in
      let y := y + 1 in
      if negb isLastRow then processRow tasks' y s
      else Some (endCallback s)
  end.

Definition iterateRect (s : St) : option Res :=
  processRow (S (Z.to_nat height)) 0 s.

End IterateRect.

(** ** buildDiffImage *)

Record DiffOptions : Type := mkDiffOptions {
  highlightColor : Color;
  comparator : Comparator;
  (** [null], or a function *)
  ignoreDifferentPixels : option (Z → Z → bool)
}.

(** The variables of [buildDiffImage] that its three callbacks share. *)
Record BuildState : Type := mkBuild {
  result : Canvas;
  differences : Z;
  pixelIgnored : bool;
  prevPrevRow : Row;
  prevRow : Row;
  currentRow : Row
}.

Definition with_result (f : Canvas → Canvas) (s : BuildState) : BuildState :=
  mkBuild (f (result s)) (differences s) (pixelIgnored s)
          (prevPrevRow s) (prevRow s) (currentRow s).

Definition with_differences (f : Z → Z) (s : BuildState) : BuildState :=
  mkBuild (result s) (f (differences s)) (pixelIgnored s)
          (prevPrevRow s) (prevRow s) (currentRow s).

Definition with_pixelIgnored (b : bool) (s : BuildState) : BuildState :=
  mkBuild (result s) (differences s) b
          (prevPrevRow s) (prevRow s) (currentRow s).

Definition with_currentRow (f : Row → Row) (s : BuildState) : BuildState :=
  mkBuild (result s) (differences s) (pixelIgnored s)
          (prevPrevRow s) (prevRow s) (f (currentRow s)).

Section BuildDiffImage.

Variable png1 png2 : PNG.
Variable options : DiffOptions.

Let minWidth := Z.min (width png1) (width png2).
Let minHeight := Z.min (height png1) (height png2).

(** The [callback] argument of [iterateRect]. *)
Definition pixelCallback (x y : Z) (s : BuildState) : BuildState :=
  if (minWidth <=? x) || (minHeight <=? y) then
    with_result (setPixel x y (highlightColor options) None) s
  else
    let color1 := getPixel png1 x y in
    let color2 := getPixel png2 x y in
    if negb (comparator options (mkData color1 color2 None)) then
      if match ignoreDifferentPixels options with
         | Some ignore => ignore x y
         | None => false
         end
      then
        with_result (setPixel x y color1 (Some 100)) (with_pixelIgnored true s)
      else
        with_differences Z.succ
          (with_result (setPixel x y (highlightColor options) None)
             (with_currentRow (setTrue x) s))
    else
      with_result (setPixel x y color1 (Some 100)) s.

Definition hasNeighboorDiff (s : BuildState) (x : Z) : bool :=
  isTrue (prevPrevRow s) (x - 1) || isTrue (prevPrevRow s) x ||
    isTrue (prevPrevRow s) (x + 1) ||
  isTrue (prevRow s) (x - 1) || isTrue (prevRow s) (x + 1) ||
  isTrue (currentRow s) (x - 1) || isTrue (currentRow s) x ||
    isTrue (currentRow s) (x + 1).

(** One iteration of the loop of [checkRow(y)]. *)
Definition checkPixel (y : Z) (s : BuildState) (x : Z) : BuildState :=
  if isTrue (prevRow s) x then
    if negb (hasNeighboorDiff s x) then
      with_differences Z.pred
        (with_result (setPixel x y (getPixel png1 x y) (Some 100)) s)
    else s
  else s.

Definition checkRow (y : Z) (s : BuildState) : BuildState :=
  foldl (checkPixel y) s (seqZ 0 (len (prevRow s))).

(** The [rowDoneCallback] argument of [iterateRect]. *)
Definition rowDone (y : Z) (isLastRow : bool) (s : BuildState) : BuildState :=
  let s := checkRow (y - 1) s in
  let s := mkBuild (result s) (differences s) (pixelIgnored s)
                   (prevRow s) (currentRow s) emptyRow in
  if isLastRow then checkRow y s else s.

(** The arguments of the completion callback. *)
Definition completion (s : BuildState) : Canvas * bool * bool :=
  (result s, differences s =? 0, pixelIgnored s).

(** The shared variables as declared, before the first row. *)
Definition initialBuild : BuildState :=
  mkBuild (png_empty (Z.max (width png1) (width png2))
                     (Z.max (height png1) (height png2)))
          0 false emptyRow emptyRow emptyRow.

Definition buildDiffImage : option (Canvas * bool * bool) :=
  let width := Z.max (width png1) (width png2) in
  let height := Z.max (height png1) (height png2) in
  iterateRect width height pixelCallback rowDone completion initialBuild.

End BuildDiffImage.

(** ** getDiffArea (the bounding-box calculator) *)

Definition num_of_Z (z : Z) : number := Finite (inject_Z z).

Definition num_add (a b : number) : number :=
  match a, b with
  | NaN, _ | _, NaN => NaN
  | Infinity, NegInfinity | NegInfinity, Infinity => NaN
  | Infinity, _ | _, Infinity => Infinity
  | NegInfinity, _ | _, NegInfinity => NegInfinity
  | Finite x, Finite y => Finite (x + y)
  end.

Definition num_neg (a : number) : number :=
  match a with
  | NaN => NaN
  | Infinity => NegInfinity
  | NegInfinity => Infinity
  | Finite x => Finite (- x)
  end.

Definition num_sub (a b : number) : number := num_add a (num_neg b).

(** [Math.min.apply(Math, l)] and [Math.max.apply(Math, l)]; on the empty
    list they are [Infinity] and [-Infinity]. *)
Definition Math_min (l : list number) : number :=
  foldr (λ a b, match a, b with
                | NaN, _ | _, NaN => NaN
                | _, _ => if num_lt a b then a else b
                end) Infinity l.

Definition Math_max (l : list number) : number :=
  foldr (λ a b, match a, b with
                | NaN, _ | _, NaN => NaN
                | _, _ => if num_lt a b then b else a
                end) NegInfinity l.

Module Rect.
Record t : Type := mk { left : number; top : number; width : number; height : number }.
End Rect.

(** The module-level [getDiffArea(diffPixelsCoords)]. *)
Definition getDiffArea (diffPixelsCoords : list (Z * Z)) : Rect.t :=
  let xs := (λ coords, num_of_Z (fst coords)) <$> diffPixelsCoords in
  let ys := (λ coords, num_of_Z (snd coords)) <$> diffPixelsCoords in
  let top := Math_min ys in
  let bottom := Math_max ys in
  let left := Math_min xs in
  let right := Math_max xs in
  let width := num_add (num_sub right left) (Finite 1) in
  let height := num_add (num_sub bottom top) (Finite 1) in
  Rect.mk left top width height.

(** ** The comparator chain *)

(** The [compare] methods of the two wrapper classes, [lib/antialiasing-comparator]
    and [lib/ignore-caret-comparator], given the constructor arguments. *)
Class Wrappers : Type := {
  AntialiasingComparator : Comparator → PNG → PNG → Comparator;
  IgnoreCaretComparator : Comparator → value → Comparator
}.

Definition makeAntialiasingComparator {W : Wrappers}
    (comparator : Comparator) (png1 png2 : PNG) : Comparator :=
  λ data, AntialiasingComparator comparator png1 png2 data.

Definition makeNoCaretColorComparator {W : Wrappers}
    (comparator : Comparator) (pixelRatio : value) : Comparator :=
  λ data, IgnoreCaretComparator comparator pixelRatio data.

(** A JS object: its keys and their values. *)
Abbreviation object := (gmap string value).

(** [o.key]: [undefined] when the key is absent. *)
Definition prop (o : object) (key : string) : value := default VUndefined (o !! key).

(** [_.hasIn(o, key)] *)
Definition hasIn (o : object) (key : string) : bool := bool_decide (is_Some (o !! key)).

Definition createComparator {CD : ColorDiff} {JS : Engine} {W : Wrappers}
    (png1 png2 : PNG) (opts : object) : Comparator :=
  let comparator :=
    if truthy (prop opts "strict") then areColorsSame
    else makeCIEDE2000Comparator (prop opts "tolerance") in
  let comparator :=
    if truthy (prop opts "ignoreAntialiasing")
    then makeAntialiasingComparator comparator png1 png2
    else comparator in
  let comparator :=
    if truthy (prop opts "ignoreCaret")
    then makeNoCaretColorComparator comparator (prop opts "pixelRatio")
    else comparator in
  comparator.

(** ** Effects of the exported operations *)

Inductive Error : Type :=
| TypeError (message : string)
| LoadError (message : string)
| SaveError (message : string).

(** What an operation does to the outside, in order.  [Uncaught] is an
    exception thrown inside a callback that the host invoked: it goes to
    the host's frame, not to the caller of the operation. *)
Inductive event : Type :=
| ReadPair (reference image : value)
| Compare (x y : Z)
| Save (path : value)
| Uncaught (error : Error).

(** The objects the caller and the operation share, and the events so far. *)
Record world : Type := mkWorld {
  heap : gmap loc object;
  events : list event
}.

(** How the synchronous part of a call ends: [Thrown] is an exception
    reaching the caller; [Done] carries what the callback receives or the
    promise settles to, the tasks the call schedules being run in order;
    [Unanswered] is a call whose scheduled tasks never answer. *)
Inductive outcome (A : Type) : Type :=
| Done (a : A)
| Thrown (e : Error)
| Unanswered.
Arguments Done {A} a.
Arguments Thrown {A} e.
Arguments Unanswered {A}.

Definition Eff (A : Type) : Type := world → outcome A * world.

#[global] Instance Eff_ret : MRet Eff := λ A a w, (Done a, w).

#[global] Instance Eff_bind : MBind Eff := λ A B k m w,
  match m w with
  | (Done a, w') => k a w'
  | (Thrown e, w') => (Thrown e, w')
  | (Unanswered, w') => (Unanswered, w')
  end.

Definition throw {A} (e : Error) : Eff A := λ w, (Thrown e, w).

(** An exception that leaves a callback: nothing after it runs, and what
    the operation was to answer is never answered. *)
Definition uncaught {A} (e : Error) : Eff A :=
  λ w, (Unanswered, mkWorld (heap w) (events w ++ [Uncaught e])).

Definition emit (e : event) : Eff unit :=
  λ w, (Done (), mkWorld (heap w) (events w ++ [e])).

(** The object behind a reference. *)
Definition deref (l : loc) : Eff object :=
  λ w, (Done (default ∅ (heap w !! l)), w).

(** [l.key = v] *)
Definition assign (l : loc) (key : string) (v : value) : Eff unit :=
  λ w, (Done (),
        mkWorld (<[l := <[key := v]> (default ∅ (heap w !! l))]> (heap w)) (events w)).

(** [{}] *)
Definition newObject : Eff loc :=
  λ w, let l := fresh (dom (heap w)) in
       (Done l, mkWorld (<[l := ∅]> (heap w)) (events w)).

(** [v.key] for a value that may or may not be an object. *)
Definition member (v : value) (key : string) : Eff value :=
  match v with
  | VObj l => o ← deref l; mret (prop o key)
  | _ => mret VUndefined
  end.

(** The pair of rasters that [readPair] yields. *)
Record Pair : Type := mkPair { first : PNG; second : PNG }.

(** The collaborators that do I/O or parse: [readPair] of [lib/utils],
    [save] of [lib/png] and the [parse-color] package.  [parseColor] is the
    [rgb] field of what the package returns: the three channels, or [None]
    when the field is [undefined], which is what the package leaves for an
    argument that names no color ([undefined] included). *)
Class Host : Type := {
  readPair : value → value → Error + Pair;
  save : Canvas → value → option Error;
  parseColor : value → option (Z * Z * Z)
}.

Definition call_readPair {Hst : Host} (reference image : value) : Eff (Error + Pair) :=
  emit (ReadPair reference image);; mret (readPair reference image).

Definition call_save {Hst : Host} (c : Canvas) (path : value) : Eff (option Error) :=
  emit (Save path);; mret (save c path).

(** Modelled from the spec: [getDiffPixelsCoords] of [lib/utils] is not part
    of the sources at hand.  It scans the raster row by row, asks the
    comparator about each pixel and collects the coordinates that mismatch;
    with [stopOnFirstFail] it stops at the first mismatch.  Every comparator
    invocation is recorded as a [Compare] event. *)
Fixpoint scanPixels (png1 png2 : PNG) (predicate : Comparator)
    (stopOnFirstFail : bool) (todo found : list (Z * Z)) : Eff (list (Z * Z)) :=
  match todo with
  | [] => mret found
  | (x, y) :: todo =>
      emit (Compare x y);;
      if predicate (mkData (getPixel png1 x y) (getPixel png2 x y) (Some (x, y)))
      then scanPixels png1 png2 predicate stopOnFirstFail todo found
      else if stopOnFirstFail then mret (found ++ [(x, y)])
      else scanPixels png1 png2 predicate stopOnFirstFail todo (found ++ [(x, y)])
  end.

(** The coordinates of a [w] by [h] raster, row by row. *)
Definition rowMajor (w h : Z) : list (Z * Z) :=
  y ← seqZ 0 h; (λ x, (x, y)) <$> seqZ 0 w.

Definition getDiffPixelsCoords (png1 png2 : PNG) (predicate : Comparator)
    (stopOnFirstFail : bool) : Eff (list (Z * Z)) :=
  scanPixels png1 png2 predicate stopOnFirstFail
    (rowMajor (width png1) (height png1)) [].

(** ** Options *)

(** The message of the TypeError that reading [parsed.rgb[0]] raises when
    [parsed.rgb] is [undefined] (the wording is the engine's). *)
Definition reading_of_undefined : string :=
  "Cannot read properties of undefined (reading '0')".

(** [parseColorString(str)]: the color, or the TypeError thrown at
    [parsed.rgb[0]]. *)
Definition parseColorString {Hst : Host} (str : value) : Error + Color :=
  match parseColor str with
  | Some rgb => inr (mkColor (rgb.1.1) (rgb.1.2) (rgb.2))
  | None => inl (TypeError reading_of_undefined)
  end.

Definition quote : string := String (Ascii.ascii_of_nat 34) EmptyString.

Definition strict_and_tolerance : string :=
  "Unable to use " +:+ quote +:+ "strict" +:+ quote +:+ " and " +:+
  quote +:+ "tolerance" +:+ quote +:+ " options together".

Definition getToleranceFromOpts (opts : loc) : Eff value :=
  o ← deref opts;
  if negb (hasIn o "tolerance") then mret (VNum JND)
  else if truthy (prop o "strict") then throw (TypeError strict_and_tolerance)
  else mret (prop o "tolerance").

Definition prepareOpts (opts : loc) : Eff unit :=
  tolerance ← getToleranceFromOpts opts;
  assign opts "tolerance" tolerance;;
  o ← deref opts;
  match prop o "ignoreAntialiasing" with
  | VUndefined => assign opts "ignoreAntialiasing" (VBool true)
  | _ => mret ()
  end.

(** ** The exported operations *)

(** What a node-style callback receives: [callback(error)] or
    [callback(null, result)]. *)
Inductive answer (A : Type) : Type :=
| Failure (error : Error)
| Result (a : A).
Arguments Failure {A} error.
Arguments Result {A} a.

(** [looksSame(reference, image, opts, callback)]; [opts] is [None] for the
    three-argument call [looksSame(reference, image, callback)]. *)
Definition looksSame {CD : ColorDiff} {JS : Engine} {W : Wrappers} {Hst : Host}
    (reference image : value) (opts : option loc) : Eff (answer bool) :=
  opts ← match opts with Some l => mret l | None => newObject end;
  prepareOpts opts;;
  loaded ← call_readPair reference image;
  match loaded with
  | inl error => mret (Failure error)
  | inr loaded =>
      let first := first loaded in
      let second := second loaded in
      if negb (width first =? width second) || negb (height first =? height second)
      then mret (Result false)
      else
        o ← deref opts;
        let comparator := createComparator first second o in
        result ← getDiffPixelsCoords first second comparator true;
        mret (Result (bool_decide (length result = 0%nat)))
  end.

(** [exports.getDiffArea(reference, image, opts, callback)]; the callback
    receives [null] ([None]) or a rectangle. *)
Definition exports_getDiffArea {CD : ColorDiff} {JS : Engine} {W : Wrappers} {Hst : Host}
    (reference image : value) (opts : option loc) : Eff (answer (option Rect.t)) :=
  opts ← match opts with Some l => mret l | None => newObject end;
  prepareOpts opts;;
  loaded ← call_readPair reference image;
  match loaded with
  | inl error => mret (Failure error)
  | inr loaded =>
      let first := first loaded in
      let second := second loaded in
      if negb (width first =? width second) || negb (height first =? height second)
      then mret (Result (Some (Rect.mk
             (Finite 0) (Finite 0)
             (num_of_Z (Z.max (width first) (width second)))
             (num_of_Z (Z.max (height first) (height second))))))
      else
        o ← deref opts;
        let comparator := createComparator first second o in
        result ← getDiffPixelsCoords first second comparator false;
        if bool_decide (length result = 0%nat) then mret (Result None)
        else mret (Result (Some (getDiffArea result)))
  end.

(** What the promise of [createDiff] settles to: [{equal, pixelIgnored}]
    (the second key only when equal) or a rejection. *)
Inductive settled : Type :=
| Resolved (equal : bool) (pixelIgnored : option bool)
| Rejected (error : Error).

Section CreateDiff.

Context {CD : ColorDiff} {JS : Engine} {Hst : Host}.

(** The initial [diffOptions] of [createDiff]: the object literal, whose
    first field is the one that can throw. *)
Definition createDiff_diffOptions (opts : object) (tolerance : value)
  : Error + DiffOptions :=
  match parseColorString (prop opts "highlightColor") with
  | inl error => inl error
  | inr highlightColor =>
      inr (mkDiffOptions
             highlightColor
             (if truthy (prop opts "strict") then areColorsSame
              else makeCIEDE2000Comparator tolerance)
             None)
  end.

(** The function stored in [diffOptions.ignoreDifferentPixels]. *)
Definition createDiff_ignoreDifferentPixels (diffOptions : DiffOptions)
    (png1 png2 : PNG) (x y : Z) : bool :=
  let maxWidth := Z.max (width png1) (width png2) in
  let maxHeight := Z.max (height png1) (height png2) in
  let minWidth := Z.min (width png1) (width png2) in
  let minHeight := Z.min (height png1) (height png2) in
  if minWidth <=? x then x <? maxWidth
  else if minHeight <=? y then y <? maxHeight
  else
    let color1 := getPixel png1 x y in
    let color2 := getPixel png2 x y in
    negb (comparator diffOptions (mkData color1 color2 None)).

(** [start()] *)
Definition createDiff_start (opts : object) (loaded : Pair) (diffOptions : DiffOptions)
  : Eff settled :=
  match buildDiffImage (first loaded) (second loaded) diffOptions with
  | None => λ w, (Unanswered, w)
  | Some (image, equal, pixelIgnored) =>
      if equal then mret (Resolved true (Some pixelIgnored))
      else
        error ← call_save image (prop opts "diff");
        match error with
        | Some error => mret (Rejected error)
        | None => mret (Resolved false None)
        end
  end.

(** [exports.createDiff(opts)].  The tolerance is read before the promise
    is made, so its TypeError is thrown to the caller; the color is parsed
    inside the callback of [readPair], where a TypeError settles nothing:
    neither [resolve] nor [reject] is reached.  ([readPair] is taken to
    call back without catching what its callback throws.) *)
Definition createDiff (opts : loc) : Eff settled :=
  tolerance ← getToleranceFromOpts opts;
  o ← deref opts;
  loaded ← call_readPair (prop o "reference") (prop o "current");
  match loaded with
  | inl error => mret (Rejected error)
  | inr loaded =>
      match createDiff_diffOptions o tolerance with
      | inl error => uncaught error
      | inr diffOptions =>
          if truthy (prop o "ignoreDifferentPixels") then
            reference ← member (prop o "ignoreDifferentPixels") "reference";
            current ← member (prop o "ignoreDifferentPixels") "current";
            otherPair ← call_readPair reference current;
            match otherPair with
            | inl error => mret (Rejected error)
            | inr otherPair =>
                let png1 := first otherPair in
                let png2 := second otherPair in
                createDiff_start o loaded
                  (mkDiffOptions (highlightColor diffOptions) (comparator diffOptions)
                     (Some (createDiff_ignoreDifferentPixels diffOptions png1 png2)))
            end
          else createDiff_start o loaded diffOptions
      end
  end.

End CreateDiff.

(** [exports.colors(color1, color2, opts)]; [opts] is [None] when the
    argument is omitted. *)
Definition colors {CD : ColorDiff} {JS : Engine} (color1 color2 : Color) (opts : option loc) : Eff bool :=
  opts ← match opts with Some l => mret l | None => newObject end;
  o ← deref opts;
  match prop o "tolerance" with
  | VUndefined => assign opts "tolerance" (VNum JND)
  | _ => mret ()
  end;;
  o ← deref opts;
  let comparator := makeCIEDE2000Comparator (prop o "tolerance") in
  mret (comparator (mkData color1 color2 None)).

(** ** What the diff-image builder is to compute *)

(** A row array holds the flags of row [y] of a canvas of width [w]. *)
Definition RowIs (fl : Z → Z → bool) (w : Z) (r : Row) (y : Z) : Prop :=
  (∀ i, isTrue r i = fl i y) ∧ 0 ≤ len r ≤ w ∧ (∀ i, fl i y = true → i < len r).

(** How many coordinates of a list satisfy [P]. *)
Definition count (P : Z → Z → bool) (l : list (Z * Z)) : Z :=
  Z.of_nat (length (filter (λ c, P c.1 c.2 = true) l)).

Section DiffSpec.

Variable png1 png2 : PNG.
Variable options : DiffOptions.

(** The pixel at [(x, y)] is flagged by the scan: it lies in both rasters,
    the comparator reports a mismatch and the ignore predicate, if any,
    does not claim it. *)
Definition flagged (x y : Z) : bool :=
  (0 <=? x) && (0 <=? y) &&
  (x <? Z.min (width png1) (width png2)) &&
  (y <? Z.min (height png1) (height png2)) &&
  negb (comparator options (mkData (getPixel png1 x y) (getPixel png2 x y) None)) &&
  negb (match ignoreDifferentPixels options with
        | Some ignore => ignore x y
        | None => false
        end).

(** One of the eight neighbors of [(x, y)] is flagged. *)
Definition flaggedNeighbor (x y : Z) : bool :=
  flagged (x - 1) (y - 1) || flagged x (y - 1) || flagged (x + 1) (y - 1) ||
  flagged (x - 1) y || flagged (x + 1) y ||
  flagged (x - 1) (y + 1) || flagged x (y + 1) || flagged (x + 1) (y + 1).

Definition isolated (x y : Z) : bool := flagged x y && negb (flaggedNeighbor x y).

Definition retained (x y : Z) : bool := flagged x y && flaggedNeighbor x y.

(** The arguments of the [setPixel] call that the scan makes at [(x, y)]. *)
Definition painted (x y : Z) : Color * option Z :=
  if (Z.min (width png1) (width png2) <=? x) || (Z.min (height png1) (height png2) <=? y)
  then (highlightColor options, None)
  else if flagged x y then (highlightColor options, None)
  else (getPixel png1 x y, Some 100).

(** The original color, as a retraction repaints it. *)
Definition original (x y : Z) : Color * option Z := (getPixel png1 x y, Some 100).

(** What the finished canvas shows at a coordinate of the scan. *)
Definition final (x y : Z) : Color * option Z :=
  if isolated x y then original x y else painted x y.

(** The invariant of the row loop: the state before row [y] is scanned,
    on a canvas of width [w]. *)
Definition BuildInv (w y : Z) (s : BuildState) : Prop :=
  currentRow s = emptyRow ∧
  RowIs flagged w (prevRow s) (y - 1) ∧
  RowIs flagged w (prevPrevRow s) (y - 2) ∧
  differences s =
    count flagged (rowMajor w y) - count isolated (rowMajor w (y - 1)) ∧
  (∀ x0 y0, 0 ≤ x0 < w → 0 ≤ y0 < y - 1 →
            rendered (result s) x0 y0 = Some (final x0 y0)) ∧
  (∀ x0, 0 ≤ x0 < w → 0 ≤ y - 1 →
         rendered (result s) x0 (y - 1) = Some (painted x0 (y - 1))).

End DiffSpec.

(** One task of [iterateRect]: the callbacks of row [y], then the end of the row. *)
Definition rowTask {St : Type} (width height : Z) (callback : Z → Z → St → St)
    (rowDoneCallback : Z → bool → St → St) (s : St) (y : Z) : St :=
  rowDoneCallback y (bool_decide (y >= height))
    (foldl (λ s x, callback x y s) s (seqZ 0 width)).

(** ** What the exported operations are to do *)

(** The options object as [prepareOpts] leaves it. *)
Definition prepared (o : object) : object :=
  let tolerance := if hasIn o "tolerance" then prop o "tolerance" else VNum JND in
  let o := <["tolerance" := tolerance]> o in
  match prop o "ignoreAntialiasing" with
  | VUndefined => <["ignoreAntialiasing" := VBool true]> o
  | _ => o
  end.

(** The call throws the configuration error: a [tolerance] key together with
    a truthy [strict]. *)
Definition conflicting (o : object) : bool :=
  hasIn o "tolerance" && truthy (prop o "strict").

(** The comparator chain in the words of the specification: the base
    comparator (exact or perceptual), then the antialiasing wrapper when
    [ignoreAntialiasing] is enabled (the default), then the caret wrapper
    when [ignoreCaret] is enabled. *)
Definition specified_chain {CD : ColorDiff} {JS : Engine} {W : Wrappers}
    (png1 png2 : PNG) (config : object) : Comparator :=
  let base :=
    if truthy (prop config "strict") then areColorsSame
    else makeCIEDE2000Comparator
           (if hasIn config "tolerance" then prop config "tolerance" else VNum JND) in
  let antialiasing :=
    match prop config "ignoreAntialiasing" with
    | VUndefined => true
    | v => truthy v
    end in
  let second := if antialiasing then AntialiasingComparator base png1 png2 else base in
  if truthy (prop config "ignoreCaret")
  then IgnoreCaretComparator second (prop config "pixelRatio")
  else second.

(** [v.key] as a world holds it: [undefined] on a value that is no object. *)
Definition field (w : world) (v : value) (key : string) : value :=
  match v with
  | VObj l => prop (default ∅ (heap w !! l)) key
  | _ => VUndefined
  end.

(** The comparator's verdict on the pixel at a coordinate of a scan. *)
Definition matchesAt (png1 png2 : PNG) (predicate : Comparator) (c : Z * Z) : bool :=
  predicate (mkData (getPixel png1 c.1 c.2) (getPixel png2 c.1 c.2) (Some c)).

(** The coordinates up to and including the first one that fails [ok]. *)
Fixpoint untilMismatch (ok : Z * Z → bool) (l : list (Z * Z)) : list (Z * Z) :=
  match l with
  | [] => []
  | c :: l => c :: if ok c then untilMismatch ok l else []
  end.

Definition compareEvents (l : list (Z * Z)) : list event :=
  (λ c, Compare c.1 c.2) <$> l.

(** The test on the loaded pair that [looksSame] and [getDiffArea] make. *)
Definition sizesDiffer (loaded : Pair) : bool :=
  negb (width (first loaded) =? width (second loaded)) ||
  negb (height (first loaded) =? height (second loaded)).

(** ** Sample inputs *)

Module Sample.

Definition black : Color := mkColor 0 0 0.
Definition white : Color := mkColor 255 255 255.
Definition nearBlack : Color := mkColor 3 0 0.
Definition pink : Color := mkColor 255 0 255.

Definition solid (w h : Z) (c : Color) : PNG := mkPNG w h (λ _ _, c).

(** A solid raster but for one pixel. *)
Definition dotted (w h : Z) (c : Color) (x0 y0 : Z) (c' : Color) : PNG :=
  mkPNG w h (λ x y, if (x =? x0) && (y =? y0) then c' else c).

(** A stand-in for the color-diff package: the distance is the sum of the
    channel differences. *)
Definition colorDiff : ColorDiff := {|
  Lab := Color;
  rgb_to_lab := λ c, c;
  diff := λ a b, num_of_Z (Z.abs (R a - R b) + Z.abs (G a - G b) + Z.abs (B a - B b))
|}.

(** A stand-in for the engine's string conversion: the empty string is 0
    and a string of at most fifteen decimal digits is its integer, which a
    double holds exactly; it does not attempt the rest of the grammar. *)
Fixpoint digits (s : string) (sofar : Z) : option Z :=
  match s with
  | EmptyString => Some sofar
  | String c s =>
      let code := Z.of_nat (Ascii.nat_of_ascii c) in
      if (48 <=? code) && (code <=? 57) then digits s (10 * sofar + (code - 48))
      else None
  end.

Definition engine : Engine := {|
  StringToNumber := λ s,
    match digits s 0 with
    | Some z => if (String.length s <=? 15)%nat then num_of_Z z else NaN
    | None => NaN
    end
|}.

(** Wrappers that never reclassify a mismatch. *)
Definition wrappers : Wrappers := {|
  AntialiasingComparator := λ comparator _ _, comparator;
  IgnoreCaretComparator := λ comparator _, comparator
|}.


Definition decode (source : value) : option PNG :=
  match source with
  | VStr "black-1x1" => Some (solid 1 1 black)
  | VStr "black-2x1" => Some (solid 2 1 black)
  | VStr "white-2x1" => Some (solid 2 1 white)
  | VStr "black-3x3" => Some (solid 3 3 black)
  | VStr "dot-3x3" => Some (dotted 3 3 black 1 1 white)
  | VStr "black-10x10" => Some (solid 10 10 black)
  | VStr "black-12x10" => Some (solid 12 10 black)
  | _ => None
  end.

Definition host : Host := {|
  readPair := λ reference image,
    match decode reference, decode image with
    | Some a, Some b => inr (mkPair a b)
    | _, _ => inl (LoadError "unreadable")
    end;
  save := λ _ _, None;
  parseColor := λ str,
    match str with
    | VStr "#ff00ff" => Some (255, 0, 255)
    | VStr "#ffffff" => Some (255, 255, 255)
    | _ => None
    end
|}.

(** A world whose only object, at reference [1], is the options object. *)
Definition worldWith (opts : object) : world := mkWorld {[ 1%positive := opts ]} [].

(** [{strict: true, tolerance: 5}] *)
Definition strictAndTolerance : object :=
  <["strict" := VBool true]> (<["tolerance" := VNum (Finite 5)]> ∅).

(** [{tolerance: -1}] *)
Definition negativeTolerance : object :=
  <["tolerance" := VNum (Finite (-1))]> ∅.


(** [{reference: 'black-1x1', current: 'black-2x1', highlightColor: '#ff00ff',
      strict: true}] *)
Definition sizeMismatch : object :=
  <["reference" := VStr "black-1x1"]> (<["current" := VStr "black-2x1"]>
    (<["highlightColor" := VStr "#ff00ff"]> (<["strict" := VBool true]> ∅))).

End Sample.

(** ** More of what the diff-image builder computes *)

Section MaskSpec.

Variable png1 png2 : PNG.
Variable options : DiffOptions.

(** The pixel at [(x, y)] lies in both rasters and the comparator reports a
    mismatch there. *)
Definition mismatching (x y : Z) : bool :=
  (0 <=? x) && (0 <=? y) &&
  (x <? Z.min (width png1) (width png2)) &&
  (y <? Z.min (height png1) (height png2)) &&
  negb (comparator options (mkData (getPixel png1 x y) (getPixel png2 x y) None)).

(** A mismatching pixel that the ignore predicate claims. *)
Definition ignoredAt (x y : Z) : bool :=
  mismatching x y &&
  match ignoreDifferentPixels options with
  | Some ignore => ignore x y
  | None => false
  end.

(** The coordinate lies outside the smaller raster. *)
Definition outside (x y : Z) : bool :=
  (Z.min (width png1) (width png2) <=? x) || (Z.min (height png1) (height png2) <=? y).

End MaskSpec.

(** The location that [{}] allocates in a world. *)
Definition freshLoc (w : world) : loc := fresh (dom (heap w)).

(** ** More sample inputs *)

Module Requests.

(** [{strict: true}] *)
Definition strictOnly : object := <["strict" := VBool true]> ∅.

(** [{tolerance: undefined}] *)
Definition undefinedTolerance : object := <["tolerance" := VUndefined]> ∅.


(** [{reference: 'black-2x1', current: 'white-2x1', highlightColor: '#ff00ff',
      diff: 'out'}] *)
Definition blackWhite : object :=
  <["reference" := VStr "black-2x1"]> (<["current" := VStr "white-2x1"]>
    (<["highlightColor" := VStr "#ff00ff"]> (<["diff" := VStr "out"]> ∅))).


(** The same request with [ignoreDifferentPixels] set to the object at
    reference [2]. *)
Definition masked : object := <["ignoreDifferentPixels" := VObj 2%positive]> blackWhite.

(** A world with the masked request at reference [1] and the mask at [2]. *)
Definition worldWithMask (mask : object) : world :=
  mkWorld (<[1%positive := masked]> (<[2%positive := mask]> ∅)) [].

End Requests.

(** * Proofs *)

(** ** The row iterator *)

Section IterateRectFacts.
Context {St Res : Type}.
Variable width height : Z.
Variable callback : Z → Z → St → St.
Variable rowDoneCallback : Z → bool → St → St.
Variable endCallback : St → Res.

Lemma processRow_S (n : nat) (y : Z) (s : St) :
  processRow width height callback rowDoneCallback endCallback (S n) y s =
  if negb (bool_decide (y >= height))
  then processRow width height callback rowDoneCallback endCallback n (y + 1)
         (rowTask width height callback rowDoneCallback s y)
  else Some (endCallback (rowTask width height callback rowDoneCallback s y)).
Proof. reflexivity. Qed.

Lemma processRow_rows (n : nat) (y : Z) (s : St) :
  y ≤ height → n = Z.to_nat (height - y) →
  processRow width height callback rowDoneCallback endCallback (S n) y s =
  Some (endCallback (foldl (rowTask width height callback rowDoneCallback) s (seqZ y (height - y + 1)))).
Proof.
  revert y s. induction n as [|n IH]; intros y s Hy Hn; rewrite processRow_S.
  - assert (y = height) as -> by lia.
    rewrite bool_decide_eq_true_2 by lia. cbn [negb].
    replace (height - height + 1) with 1 by lia.
    change (seqZ height 1) with [0 + height]. cbn [foldl].
    rewrite Z.add_0_l. reflexivity.
  - rewrite bool_decide_eq_false_2 by lia. cbn [negb].
    assert (seqZ y (height - y + 1) = y :: seqZ (y + 1) (height - (y + 1) + 1)) as ->.
    { rewrite seqZ_cons by lia. f_equal. f_equal; lia. }
    cbn [foldl]. apply IH; lia.
Qed.

Lemma iterateRect_rows (s : St) :
  0 ≤ height →
  iterateRect width height callback rowDoneCallback endCallback s =
  Some (endCallback (foldl (rowTask width height callback rowDoneCallback) s (seqZ 0 (height + 1)))).
Proof.
  intros Hh. unfold iterateRect.
  rewrite (processRow_rows (Z.to_nat height) 0); [|lia|f_equal; lia].
  replace (height - 0 + 1) with (height + 1) by lia. reflexivity.
Qed.
End IterateRectFacts.

Lemma rendered_setPixel x y c a cv x0 y0 :
  rendered (setPixel x y c a cv) x0 y0 =
  if (x =? x0) && (y =? y0) then Some (c, a) else rendered cv x0 y0.
Proof.
  unfold rendered, setPixel. cbn. destruct ((x =? x0) && (y =? y0)); reflexivity.
Qed.

Lemma isTrue_emptyRow i : isTrue emptyRow i = false.
Proof. reflexivity. Qed.

Lemma isTrue_setTrue x r i : isTrue (setTrue x r) i = (i =? x) || isTrue r i.
Proof.
  unfold isTrue, setTrue. cbn.
  destruct (Z.eqb_spec i x) as [->|Hne]; cbn.
  - apply bool_decide_eq_true_2. set_solver.
  - apply bool_decide_ext. set_solver.
Qed.

Lemma len_setTrue x r : 0 ≤ x → len (setTrue x r) = Z.max (len r) (x + 1).
Proof. intros Hx. unfold setTrue. cbn. destruct (Z.leb_spec 0 x); [reflexivity | lia]. Qed.

Section BuildFacts.

Variable png1 png2 : PNG.
Variable options : DiffOptions.

Local Abbreviation flag := (flagged png1 png2 options).
Local Abbreviation paint := (painted png1 png2 options).
Local Abbreviation lone := (isolated png1 png2 options).
Local Abbreviation visit := (pixelCallback png1 png2 options).
Local Abbreviation check := (checkPixel png1).
Local Abbreviation checkAll := (checkRow png1).
Local Abbreviation w := (Z.max (width png1) (width png2)).
Local Abbreviation h := (Z.max (height png1) (height png2)).

Lemma flagged_bounds x y :
  flag x y = true →
  0 ≤ x < Z.min (width png1) (width png2) ∧ 0 ≤ y < Z.min (height png1) (height png2).
Proof. unfold flagged. intros H. repeat (apply andb_prop in H as [H ?]). lia. Qed.

(** What one [callback(x, y)] does to the shared variables. *)
Lemma pixelCallback_effect x y s :
  0 ≤ x → 0 ≤ y →
  let s' := visit x y s in
  result s' = setPixel x y (paint x y).1 (paint x y).2 (result s) ∧
  differences s' = differences s + (if flag x y then 1 else 0) ∧
  prevPrevRow s' = prevPrevRow s ∧ prevRow s' = prevRow s ∧
  currentRow s' = if flag x y then setTrue x (currentRow s) else currentRow s.
Proof.
  intros Hx Hy. unfold pixelCallback, painted, flagged. cbn zeta.
  destruct (Z.leb_spec (Z.min (width png1) (width png2)) x);
    destruct (Z.leb_spec (Z.min (height png1) (height png2)) y); cbn [orb].
  1-3: repeat split; try reflexivity;
       rewrite ?andb_false_r, ?andb_false_l;
       first [ destruct (Z.ltb_spec x (Z.min (width png1) (width png2))); [lia|]
             | destruct (Z.ltb_spec y (Z.min (height png1) (height png2))); [lia|] ];
       rewrite ?andb_false_r; cbn; try lia; reflexivity.
  destruct (Z.leb_spec 0 x); [|lia]. destruct (Z.leb_spec 0 y); [|lia].
  destruct (Z.ltb_spec x (Z.min (width png1) (width png2))); [|lia].
  destruct (Z.ltb_spec y (Z.min (height png1) (height png2))); [|lia].
  cbn [andb].
  destruct (comparator options _); cbn [negb andb].
  - repeat split; cbn; lia.
  - destruct (match ignoreDifferentPixels options with Some _ => _ | None => _ end);
      cbn [negb]; repeat split; cbn; lia.
Qed.


Lemma rowScan_effect y xs s :
  0 ≤ y → (∀ x, x ∈ xs → 0 ≤ x) →
  let s' := foldl (λ s x, visit x y s) s xs in
  differences s' =
    differences s + Z.of_nat (length (filter (λ x, flag x y = true) xs)) ∧
  prevPrevRow s' = prevPrevRow s ∧ prevRow s' = prevRow s ∧
  (∀ i, isTrue (currentRow s') i =
        isTrue (currentRow s) i || (bool_decide (i ∈ xs) && flag i y)) ∧
  len (currentRow s) ≤ len (currentRow s') ≤ Z.max (len (currentRow s)) w ∧
  (∀ i, i ∈ xs → flag i y = true → i < len (currentRow s')) ∧
  (∀ x0 y0, rendered (result s') x0 y0 =
            if bool_decide (x0 ∈ xs) && (y0 =? y) then Some (paint x0 y)
            else rendered (result s) x0 y0).
Proof.
  intros Hy. induction xs as [|x xs IH] using rev_ind; intros Hxs; cbn zeta.
  - cbn. repeat split; try lia.
    + intros i. rewrite bool_decide_eq_false_2 by set_solver. cbn. by rewrite orb_false_r.
    + intros i Hi. set_solver.
  - rewrite foldl_snoc.
    destruct IH as (Hd & Hpp & Hp & Hc & Hl & Hb & Hr).
    { intros x' Hx'. apply Hxs. set_solver. }
    assert (0 ≤ x) as Hx by (apply Hxs; set_solver).
    destruct (pixelCallback_effect x y (foldl (λ s x, visit x y s) s xs) Hx Hy)
      as (Er & Ed & Epp & Ep & Ec).
    set (s1 := foldl (λ s x, visit x y s) s xs) in *.
    set (s2 := visit x y s1) in *.
    rewrite filter_app, length_app, filter_cons, filter_nil.
    repeat split.
    + rewrite Ed, Hd. destruct (flag x y) eqn:Ef.
      * rewrite decide_True by done. cbn. lia.
      * rewrite decide_False by (by intros ?). cbn. lia.
    + congruence.
    + congruence.
    + intros i. rewrite Ec. destruct (flag x y) eqn:Ef.
      * rewrite isTrue_setTrue, Hc. destruct (Z.eqb_spec i x) as [->|Hne].
        -- rewrite (bool_decide_eq_true_2 (x ∈ xs ++ [x])) by set_solver.
           rewrite Ef. cbn. by rewrite orb_true_r.
        -- cbn. do 2 f_equal. apply bool_decide_ext. set_solver.
      * rewrite Hc. destruct (decide (i = x)) as [->|Hne].
        -- rewrite Ef, !andb_false_r. done.
        -- do 2 f_equal. apply bool_decide_ext. set_solver.
    + rewrite Ec. destruct (flag x y); [rewrite len_setTrue by done|]; lia.
    + rewrite Ec. destruct (flag x y) eqn:Ef; [rewrite len_setTrue by done|]; [|lia].
      apply flagged_bounds in Ef. lia.
    + intros i Hi Hfi. rewrite Ec.
      apply elem_of_app in Hi as [Hi|Hi].
      * specialize (Hb i Hi Hfi).
        destruct (flag x y); [rewrite len_setTrue by done|]; lia.
      * apply list_elem_of_singleton in Hi as ->. rewrite Hfi, len_setTrue by done. lia.
    + intros x0 y0. rewrite Er, rendered_setPixel, Hr.
      assert (bool_decide (x0 ∈ xs ++ [x]) = bool_decide (x0 ∈ xs) || (x =? x0)) as ->.
      { destruct (Z.eqb_spec x x0) as [->|];
          [ rewrite orb_true_r; apply bool_decide_eq_true_2; set_solver
          | rewrite orb_false_r; apply bool_decide_ext; set_solver ]. }
      rewrite (Z.eqb_sym y0 y).
      destruct (Z.eqb_spec x x0) as [->|], (Z.eqb_spec y y0) as [->|],
        (bool_decide (x0 ∈ xs)); cbn; try reflexivity; by destruct (paint x0 y0).
Qed.


Local Abbreviation retracts s x :=
  (isTrue (prevRow s) x && negb (hasNeighboorDiff s x)).

Lemma checkPixel_effect y s x :
  let s' := check y s x in
  prevPrevRow s' = prevPrevRow s ∧ prevRow s' = prevRow s ∧
  currentRow s' = currentRow s ∧ pixelIgnored s' = pixelIgnored s ∧
  differences s' = differences s - (if retracts s x then 1 else 0) ∧
  result s' = if retracts s x
              then setPixel x y (getPixel png1 x y) (Some 100) (result s)
              else result s.
Proof.
  unfold checkPixel.
  destruct (isTrue (prevRow s) x), (hasNeighboorDiff s x); cbn; repeat split; lia.
Qed.

Lemma hasNeighboorDiff_rows s s' x :
  prevPrevRow s' = prevPrevRow s → prevRow s' = prevRow s →
  currentRow s' = currentRow s →
  hasNeighboorDiff s' x = hasNeighboorDiff s x.
Proof. unfold hasNeighboorDiff. by intros -> -> ->. Qed.

Lemma checkRow_fold y xs s :
  let s' := foldl (check y) s xs in
  prevPrevRow s' = prevPrevRow s ∧ prevRow s' = prevRow s ∧
  currentRow s' = currentRow s ∧ pixelIgnored s' = pixelIgnored s ∧
  differences s' =
    differences s - Z.of_nat (length (filter (λ x, retracts s x = true) xs)) ∧
  (∀ x0 y0, rendered (result s') x0 y0 =
            if bool_decide (x0 ∈ xs) && (y0 =? y) && retracts s x0
            then Some (original png1 x0 y)
            else rendered (result s) x0 y0).
Proof.
  induction xs as [|x xs IH] using rev_ind; cbn zeta.
  - cbn. repeat split; try lia;
      try (intros x0 y0; by rewrite bool_decide_eq_false_2 by set_solver).
  - rewrite foldl_snoc. destruct IH as (Hpp & Hp & Hc & Hi & Hd & Hr).
    destruct (checkPixel_effect y (foldl (check y) s xs) x)
      as (Epp & Ep & Ec & Ei & Ed & Er).
    set (s1 := foldl (check y) s xs) in *.
    assert (retracts s1 x = retracts s x) as Hret.
    { rewrite Hp. f_equal. f_equal. by apply hasNeighboorDiff_rows. }
    rewrite Hret in Ed, Er.
    rewrite filter_app, length_app, filter_cons, filter_nil.
    repeat split; try congruence.
    + rewrite Ed, Hd. destruct (retracts s x) eqn:E.
      * rewrite decide_True by done. cbn. lia.
      * rewrite decide_False by (by intros ?). cbn. lia.
    + intros x0 y0. rewrite Er.
      assert (bool_decide (x0 ∈ xs ++ [x]) = bool_decide (x0 ∈ xs) || (x =? x0)) as ->.
      { destruct (Z.eqb_spec x x0) as [->|];
          [ rewrite orb_true_r; apply bool_decide_eq_true_2; set_solver
          | rewrite orb_false_r; apply bool_decide_ext; set_solver ]. }
      unfold original.
      destruct (retracts s x) eqn:E.
      * rewrite rendered_setPixel, Hr, !(Z.eqb_sym y0 y).
        destruct (Z.eqb_spec x x0) as [->|], (Z.eqb_spec y y0) as [->|],
          (bool_decide (x0 ∈ xs)); cbn; rewrite ?E; try reflexivity.
      * rewrite Hr, !(Z.eqb_sym y0 y).
        destruct (Z.eqb_spec x x0) as [->|], (Z.eqb_spec y y0) as [->|],
          (bool_decide (x0 ∈ xs)); cbn; rewrite ?E; try reflexivity.
Qed.

End BuildFacts.

Lemma rowMajor_succ w y :
  0 ≤ y → rowMajor w (y + 1) = rowMajor w y ++ ((λ x, (x, y)) <$> seqZ 0 w).
Proof.
  intros Hy. unfold rowMajor. rewrite seqZ_app by lia.
  rewrite bind_app. f_equal. change (seqZ (0 + y) 1) with [0 + (0 + y)].
  rewrite !Z.add_0_l. cbn. by rewrite app_nil_r.
Qed.

Lemma rowMajor_nonpos w y : y ≤ 0 → rowMajor w y = [].
Proof.
  intros Hy. unfold rowMajor, seqZ.
  replace (Z.to_nat y) with 0%nat by lia. reflexivity.
Qed.

Lemma count_app P l1 l2 : count P (l1 ++ l2) = count P l1 + count P l2.
Proof. unfold count. rewrite filter_app, length_app. lia. Qed.

Lemma count_row P (y : Z) xs :
  count P ((λ x, (x, y)) <$> xs) =
  Z.of_nat (length (filter (λ x, P x y = true) xs)).
Proof.
  unfold count. f_equal. induction xs as [|x xs IH]; [done|].
  rewrite fmap_cons, !filter_cons. cbn [fst snd].
  destruct (decide (P x y = true)); cbn; by rewrite IH.
Qed.

Lemma count_rowMajor_succ P w y :
  0 ≤ y →
  count P (rowMajor w (y + 1)) =
  count P (rowMajor w y) + Z.of_nat (length (filter (λ x, P x y = true) (seqZ 0 w))).
Proof. intros Hy. by rewrite rowMajor_succ, count_app, count_row. Qed.

Lemma filter_length_ext {A} (P Q : A → Prop) `{∀ x, Decision (P x)} `{∀ x, Decision (Q x)}
    (l : list A) :
  (∀ x, x ∈ l → P x ↔ Q x) → length (filter P l) = length (filter Q l).
Proof.
  induction l as [|x l IH]; intros Hl; [done|]. rewrite !filter_cons.
  assert (P x ↔ Q x) as Hx by (apply Hl; set_solver).
  assert (length (filter P l) = length (filter Q l)) as IH'
    by (apply IH; intros; apply Hl; set_solver).
  destruct (decide (P x)), (decide (Q x)); cbn; tauto || lia.
Qed.

Lemma filter_none {A} (P : A → Prop) `{∀ x, Decision (P x)} (l : list A) :
  (∀ x, x ∈ l → ¬ P x) → filter P l = [].
Proof.
  induction l as [|x l IH]; intros Hl; [done|]. rewrite filter_cons.
  rewrite decide_False by (apply Hl; set_solver). apply IH. intros; apply Hl; set_solver.
Qed.

Lemma filter_length_seqZ_extend (P : Z → Prop) `{∀ x, Decision (P x)} n m :
  0 ≤ n ≤ m → (∀ x, n ≤ x < m → ¬ P x) →
  length (filter P (seqZ 0 n)) = length (filter P (seqZ 0 m)).
Proof.
  intros Hnm Hout. replace m with (n + (m - n)) at 1 by lia.
  rewrite seqZ_app, filter_app, length_app by lia.
  rewrite (filter_none P (seqZ (0 + n) (m - n))); [cbn; lia|].
  intros x Hx. apply elem_of_seqZ in Hx. apply Hout. lia.
Qed.

Section BuildInvariant.

Variable png1 png2 : PNG.
Variable options : DiffOptions.

Local Abbreviation flag := (flagged png1 png2 options).
Local Abbreviation neighbor := (flaggedNeighbor png1 png2 options).
Local Abbreviation paint := (painted png1 png2 options).
Local Abbreviation lone := (isolated png1 png2 options).
Local Abbreviation shown := (final png1 png2 options).
Local Abbreviation visit := (pixelCallback png1 png2 options).
Local Abbreviation check := (checkPixel png1).
Local Abbreviation checkAll := (checkRow png1).
Local Abbreviation endRow := (rowDone png1).
Local Abbreviation w := (Z.max (width png1) (width png2)).
Local Abbreviation h := (Z.max (height png1) (height png2)).
Local Abbreviation Inv := (BuildInv png1 png2 options w).

Lemma flagged_row_outside y i : y < 0 ∨ h ≤ y → flag i y = false.
Proof.
  intros Hy. destruct (flag i y) eqn:E; [|done].
  apply flagged_bounds in E. lia.
Qed.

Lemma checkRow_noflags y s :
  (∀ i, isTrue (prevRow s) i = false) → checkAll y s = s.
Proof.
  intros Hno. unfold checkRow.
  induction (seqZ 0 (len (prevRow s))) as [|x l IH] using rev_ind; [done|].
  rewrite foldl_snoc, IH. unfold checkPixel. by rewrite Hno.
Qed.

Lemma initial_inv : 0 ≤ w → Inv 0 (initialBuild png1 png2).
Proof.
  intros Hw. unfold BuildInv, initialBuild, RowIs. cbn.
  repeat split; try lia; try done;
    intros i; rewrite ?flagged_row_outside by lia; done || lia.
Qed.


Local Abbreviation retracts s x :=
  (isTrue (prevRow s) x && negb (hasNeighboorDiff s x)).

Lemma isolated_row_count y :
  0 ≤ y →
  count lone (rowMajor w y) =
  count lone (rowMajor w (y - 1)) +
  Z.of_nat (length (filter (λ x, lone x (y - 1) = true) (seqZ 0 w))).
Proof.
  intros Hy. destruct (decide (y = 0)) as [->|Hne].
  - rewrite !rowMajor_nonpos by lia. rewrite filter_none; [done|].
    intros x _. unfold isolated. rewrite flagged_row_outside by lia. done.
  - replace y with (y - 1 + 1) at 1 by lia. by rewrite count_rowMajor_succ by lia.
Qed.

Lemma rowTask_inv y s :
  0 ≤ w → 0 ≤ y ≤ h → Inv y s →
  Inv (y + 1) (rowTask w h visit endRow s y).
Proof.
  intros Hw Hy (Hcur & Hprev & Hpp & Hdiff & Hfin & Hpaint). unfold rowTask.
  destruct (rowScan_effect png1 png2 options y (seqZ 0 w) s)
    as (Sd & Spp & Sp & Sc & Sl & Sb & Sr);
    [lia | intros x Hx; apply elem_of_seqZ in Hx; lia |].
  set (s1 := foldl _ s (seqZ 0 w)) in *.
  assert (RowIs flag w (currentRow s1) y) as Hrow.
  { rewrite Hcur in Sc, Sl. cbn in Sl. split; [|split].
    - intros i. rewrite Sc, isTrue_emptyRow. cbn.
      destruct (flag i y) eqn:E; [|by rewrite andb_false_r].
      rewrite andb_true_r. apply bool_decide_eq_true_2, elem_of_seqZ.
      apply flagged_bounds in E. lia.
    - lia.
    - intros i E. apply Sb; [|done]. apply elem_of_seqZ.
      apply flagged_bounds in E. lia. }
  unfold rowDone. cbn zeta.
  destruct (checkRow_fold png1 (y - 1) (seqZ 0 (len (prevRow s1))) s1)
    as (Cpp & Cp & Cc & _ & Cd & Cr).
  change (foldl (check (y - 1)) s1 (seqZ 0 (len (prevRow s1))))
    with (checkAll (y - 1) s1) in *.
  set (s2 := checkAll (y - 1) s1) in *.
  set (s3 := mkBuild (result s2) (differences s2) (pixelIgnored s2)
                     (prevRow s2) (currentRow s2) emptyRow).
  assert ((if bool_decide (y >= h) then checkAll y s3 else s3) = s3) as ->.
  { case_bool_decide; [|done]. apply checkRow_noflags. intros i. cbn.
    rewrite Cc. destruct Hrow as [-> _]. apply flagged_row_outside. lia. }
  assert (∀ x, retracts s1 x = lone x (y - 1)) as Hret.
  { intros x. unfold isolated, flaggedNeighbor, hasNeighboorDiff.
    rewrite Sp, Spp.
    destruct Hprev as [Hprev _], Hpp as [Hpp _], Hrow as [Hrow _].
    rewrite !Hprev, !Hpp, !Hrow.
    replace (y - 1 - 1) with (y - 2) by lia.
    replace (y - 1 + 1) with y by lia. reflexivity. }
  assert (∀ i, lone i (y - 1) = true → 0 ≤ i < len (prevRow s1)) as Hiso.
  { intros i Hi. apply andb_prop in Hi as [Hi _]. rewrite Sp.
    destruct Hprev as (_ & _ & Hlen). split; [|by apply Hlen].
    apply flagged_bounds in Hi. lia. }
  unfold BuildInv. cbn [currentRow prevRow prevPrevRow differences result s3].
  replace (y + 1 - 1) with y by lia. replace (y + 1 - 2) with (y - 1) by lia.
  split; [done|]. split; [by rewrite Cc|]. split; [by rewrite Cp, Sp|].
  split; [|split].
  - rewrite Cd, Sd, Hdiff, count_rowMajor_succ, (isolated_row_count y) by lia.
    rewrite (filter_length_ext (λ x, retracts s1 x = true)
               (λ x, lone x (y - 1) = true)) by (intros; by rewrite Hret).
    rewrite (filter_length_seqZ_extend (λ x, lone x (y - 1) = true)
               (len (prevRow s1)) w).
    + lia.
    + rewrite Sp. destruct Hprev as (_ & ? & _). lia.
    + intros x Hx Hi. apply Hiso in Hi. lia.
  - intros x0 y0 Hx0 Hy0. rewrite Cr, Sr, Hret.
    rewrite (proj2 (Z.eqb_neq y0 y)), andb_false_r by lia.
    destruct (Z.eqb_spec y0 (y - 1)) as [->|Hne].
    + unfold final. destruct (lone x0 (y - 1)) eqn:Ei.
      * rewrite bool_decide_eq_true_2; [done|]. apply elem_of_seqZ.
        apply Hiso in Ei. lia.
      * rewrite andb_false_r. apply Hpaint; lia.
    + rewrite andb_false_r. cbn. apply Hfin; lia.
  - intros x0 Hx0 Hy0. rewrite Cr, Sr.
    rewrite (proj2 (Z.eqb_neq y (y - 1))), andb_false_r by lia. cbn.
    rewrite Z.eqb_refl, andb_true_r, bool_decide_eq_true_2; [done|].
    apply elem_of_seqZ. lia.
Qed.


Lemma rows_inv n s :
  0 ≤ w → 0 ≤ n ≤ h + 1 → Inv 0 s →
  Inv n (foldl (rowTask w h visit endRow) s (seqZ 0 n)).
Proof.
  intros Hw Hn H0. assert (0 ≤ n) as Hn0 by lia.
  revert Hn. pattern n. apply natlike_ind; [ | |exact Hn0].
  - intros _. exact H0.
  - intros m Hm IH Hm'. rewrite <- Z.add_1_r, seqZ_app by lia.
    change (seqZ (0 + m) 1) with [0 + (0 + m)]. rewrite !Z.add_0_l, foldl_snoc.
    apply rowTask_inv; [lia..|]. apply IH. lia.
Qed.

Lemma count_flagged_split l :
  count flag l = count lone l + count (retained png1 png2 options) l.
Proof.
  unfold count. induction l as [|[x y] l IH]; [done|].
  rewrite !filter_cons. cbn [fst snd]. unfold isolated, retained in *.
  destruct (flag x y), (neighbor x y); cbn [andb negb];
    repeat case_decide; try done; cbn [length]; lia.
Qed.

(** The scan as a whole: it ends, and the shown state holds the count of
    the retained pixels and shows every coordinate as the filter left it. *)
Lemma buildDiffImage_final :
  0 ≤ w → 0 ≤ h →
  ∃ s,
    iterateRect w h visit endRow id (initialBuild png1 png2) = Some s ∧
    buildDiffImage png1 png2 options = Some (completion s) ∧
    differences s = count (retained png1 png2 options) (rowMajor w h) ∧
    (∀ x y, 0 ≤ x < w → 0 ≤ y < h → rendered (result s) x y = Some (shown x y)) ∧
    (∀ x, 0 ≤ x < w → rendered (result s) x h = Some (highlightColor options, None)).
Proof.
  intros Hw Hh.
  exists (foldl (rowTask w h visit endRow) (initialBuild png1 png2)
            (seqZ 0 (h + 1))).
  destruct (rows_inv (h + 1) (initialBuild png1 png2) Hw) as (_ & _ & _ & Hd & Hf & Hp);
    [lia | by apply initial_inv |].
  replace (h + 1 - 1) with h in * by lia.
  split; [by rewrite iterateRect_rows|].
  split; [unfold buildDiffImage; by rewrite iterateRect_rows|].
  split; [|split].
  - rewrite Hd, count_rowMajor_succ by lia.
    rewrite filter_none, count_flagged_split; [cbn; lia|].
    intros x _. by rewrite flagged_row_outside by lia.
  - intros x y Hx Hy. apply Hf; lia.
  - intros x Hx. rewrite Hp by lia. unfold painted.
    destruct (Z.leb_spec (Z.min (height png1) (height png2)) h); [|lia].
    by rewrite orb_true_r.
Qed.

End BuildInvariant.

(** ** The perceptual comparator *)

Lemma Qltb_asym a b : Qltb a b = true → Qltb b a = false.
Proof. unfold Qltb. intros H. apply Z.ltb_lt in H. apply Z.ltb_ge. lia. Qed.

Lemma num_lt_asym a b : num_lt a b = true → num_lt b a = false.
Proof. destruct a, b; cbn; try done. apply Qltb_asym. Qed.

(** Claim C8: with [d] the CIEDE2000 distance of the two colors in Lab space,
    the perceptual comparator of tolerance [t] answers true exactly when the
    colors are equal channel by channel or [d < t]; it converts to Lab only
    when the exact match fails; and for colors that differ it answers true
    for every tolerance above [d] and false for every tolerance below [d]. *)
Theorem perceptual_comparator {CD : ColorDiff} {JS : Engine} (tolerance : value) (data : Data) (d : number) :
  d = diff (rgb_to_lab (color1 data)) (rgb_to_lab (color2 data)) →
  (makeCIEDE2000Comparator tolerance data = true ↔
     areColorsSame data = true ∨ num_lt d (to_number tolerance) = true) ∧
  (doColorsLookSame tolerance data).2 =
     (if areColorsSame data then [] else [color1 data; color2 data]) ∧
  (areColorsSame data = false →
     (num_lt d (to_number tolerance) = true →
        makeCIEDE2000Comparator tolerance data = true) ∧
     (num_lt (to_number tolerance) d = true →
        makeCIEDE2000Comparator tolerance data = false)).
Proof.
  intros ->. unfold makeCIEDE2000Comparator, doColorsLookSame.
  destruct (areColorsSame data) eqn:Esame; cbn.
  - split; [|split]; [tauto | done | done].
  - split; [|split]; [| done |].
    + split; [by right | by intros [?|?]].
    + intros _. split; [done|]. apply num_lt_asym.
Qed.

(** At distance 3: tolerance 5 accepts the pair, tolerance 2 rejects it. *)
Lemma perceptual_comparator_witness :
  makeCIEDE2000Comparator (CD := Sample.colorDiff) (JS := Sample.engine) (VNum (Finite 5))
    (mkData Sample.black Sample.nearBlack None) = true ∧
  makeCIEDE2000Comparator (CD := Sample.colorDiff) (JS := Sample.engine) (VNum (Finite 2))
    (mkData Sample.black Sample.nearBlack None) = false.
Proof.
  split.
  - apply (perceptual_comparator (CD := Sample.colorDiff) (JS := Sample.engine) (VNum (Finite 5))
             (mkData Sample.black Sample.nearBlack None) (Finite 3));
      reflexivity.
  - apply (perceptual_comparator (CD := Sample.colorDiff) (JS := Sample.engine) (VNum (Finite 2))
             (mkData Sample.black Sample.nearBlack None) (Finite 3));
      reflexivity.
Defined.

(** ** Running the effects *)

Ltac eff_unfold :=
  unfold mbind, Eff_bind, mret, Eff_ret, throw, deref, assign, emit; cbn.

Lemma world_eta w : mkWorld (heap w) (events w) = w.
Proof. by destruct w. Qed.

Lemma getToleranceFromOpts_run l w o :
  heap w !! l = Some o →
  getToleranceFromOpts l w =
  if conflicting o then (Thrown (TypeError strict_and_tolerance), w)
  else (Done (if hasIn o "tolerance" then prop o "tolerance" else VNum JND), w).
Proof.
  intros Ho. unfold getToleranceFromOpts, conflicting. eff_unfold. rewrite Ho. cbn.
  destruct (hasIn o "tolerance"); cbn; [|done].
  by destruct (truthy (prop o "strict")).
Qed.

Lemma prop_insert_eq (o : object) k v : prop (<[k := v]> o) k = v.
Proof. unfold prop. by rewrite lookup_insert_eq. Qed.

Lemma prop_insert_ne (o : object) k k' v : k ≠ k' → prop (<[k := v]> o) k' = prop o k'.
Proof. intros Hne. unfold prop. by rewrite lookup_insert_ne. Qed.

Lemma prepareOpts_run l w o :
  heap w !! l = Some o →
  prepareOpts l w =
  if conflicting o then (Thrown (TypeError strict_and_tolerance), w)
  else (Done (), mkWorld (<[l := prepared o]> (heap w)) (events w)).
Proof.
  intros Ho. unfold prepareOpts. unfold mbind at 1, Eff_bind at 1.
  rewrite (getToleranceFromOpts_run l w o Ho).
  destruct (conflicting o); [done|]. unfold prepared. eff_unfold. rewrite Ho. cbn.
  rewrite lookup_insert_eq. cbn.
  destruct (prop (<["tolerance":=_]> o) "ignoreAntialiasing"); cbn; try done.
  by rewrite lookup_insert_eq, insert_insert_eq.
Qed.

Lemma scanPixels_full png1 png2 p todo found w :
  scanPixels png1 png2 p false todo found w =
  (Done (found ++ filter (λ c, matchesAt png1 png2 p c = false) todo),
   mkWorld (heap w) (events w ++ compareEvents todo)).
Proof.
  revert found w. induction todo as [|[x y] todo IH]; intros found w.
  - cbn. unfold mret, Eff_ret. by rewrite !app_nil_r, world_eta.
  - cbn [scanPixels]. unfold mbind at 1, Eff_bind at 1, emit. cbn [heap events].
    rewrite filter_cons.
    destruct (decide (matchesAt png1 png2 p (x, y) = false)) as [E|E].
    + unfold matchesAt in E. cbn [fst snd] in E. rewrite E, IH. cbn.
      by rewrite <- !app_assoc.
    + apply not_false_is_true in E.
      unfold matchesAt in E. cbn [fst snd] in E. rewrite E, IH. cbn.
      by rewrite <- app_assoc.
Qed.

Lemma scanPixels_stop png1 png2 p todo found w :
  ∃ r, scanPixels png1 png2 p true todo found w =
       (Done (found ++ r),
        mkWorld (heap w)
          (events w ++ compareEvents (untilMismatch (matchesAt png1 png2 p) todo))) ∧
       (bool_decide (length r = 0%nat) = forallb (matchesAt png1 png2 p) todo).
Proof.
  revert found w. induction todo as [|[x y] todo IH]; intros found w.
  - exists []. cbn. unfold mret, Eff_ret. by rewrite !app_nil_r, world_eta.
  - cbn [scanPixels]. unfold mbind at 1, Eff_bind at 1, emit. cbn [heap events].
    cbn [untilMismatch forallb].
    change (p {| color1 := getPixel png1 x y; color2 := getPixel png2 x y;
                 position := Some (x, y) |})
      with (matchesAt png1 png2 p (x, y)).
    destruct (matchesAt png1 png2 p (x, y)).
    + destruct (IH found (mkWorld (heap w) (events w ++ [Compare x y]))) as (r & -> & Hr).
      exists r. cbn. rewrite <- app_assoc. done.
    + exists [(x, y)]. cbn. done.
Qed.

Lemma createComparator_prepared {CD : ColorDiff} {JS : Engine} {W : Wrappers} png1 png2 (o : object) :
  createComparator png1 png2 (prepared o) = specified_chain png1 png2 o.
Proof.
  unfold createComparator, specified_chain, prepared,
    makeAntialiasingComparator, makeNoCaretColorComparator.
  set (t := if hasIn o "tolerance" then prop o "tolerance" else VNum JND).
  rewrite (prop_insert_ne o "tolerance" "ignoreAntialiasing") by done.
  destruct (prop o "ignoreAntialiasing") eqn:Ea;
    repeat first [ rewrite prop_insert_eq | rewrite prop_insert_ne by done ];
    rewrite ?Ea; reflexivity.
Qed.

Section Operations.

Context {CD : ColorDiff} {JS : Engine} {W : Wrappers} {Hst : Host}.

Lemma looksSame_run reference image l w o :
  heap w !! l = Some o → conflicting o = false →
  looksSame reference image (Some l) w =
  let w1 := mkWorld (<[l := prepared o]> (heap w))
                    (events w ++ [ReadPair reference image]) in
  match readPair reference image with
  | inl error => (Done (Failure error), w1)
  | inr loaded =>
      if sizesDiffer loaded then (Done (Result false), w1)
      else
        let chain := specified_chain (first loaded) (second loaded) o in
        let ok := matchesAt (first loaded) (second loaded) chain in
        let coords := rowMajor (width (first loaded)) (height (first loaded)) in
        (Done (Result (forallb ok coords)),
         mkWorld (heap w1) (events w1 ++ compareEvents (untilMismatch ok coords)))
  end.
Proof.
  intros Ho Hc. unfold looksSame.
  unfold mbind at 1, Eff_bind at 1, mret at 1, Eff_ret at 1.
  unfold mbind at 1, Eff_bind at 1. rewrite (prepareOpts_run l w o Ho), Hc.
  unfold call_readPair. eff_unfold.
  destruct (readPair reference image) as [error|loaded]; [done|].
  unfold sizesDiffer. destruct (negb _ || negb _); [done|].
  cbn [heap]. rewrite lookup_insert_eq. cbn. unfold getDiffPixelsCoords.
  rewrite createComparator_prepared.
  destruct (scanPixels_stop (first loaded) (second loaded)
              (specified_chain (first loaded) (second loaded) o)
              (rowMajor (width (first loaded)) (height (first loaded))) []
              (mkWorld (<[l := prepared o]> (heap w))
                       (events w ++ [ReadPair reference image])))
    as (r & -> & Hr).
  cbn. by rewrite Hr.
Qed.

Lemma exports_getDiffArea_run reference image l w o :
  heap w !! l = Some o → conflicting o = false →
  exports_getDiffArea reference image (Some l) w =
  let w1 := mkWorld (<[l := prepared o]> (heap w))
                    (events w ++ [ReadPair reference image]) in
  match readPair reference image with
  | inl error => (Done (Failure error), w1)
  | inr loaded =>
      if sizesDiffer loaded then
        (Done (Result (Some (Rect.mk (Finite 0) (Finite 0)
           (num_of_Z (Z.max (width (first loaded)) (width (second loaded))))
           (num_of_Z (Z.max (height (first loaded)) (height (second loaded))))))),
         w1)
      else
        let chain := specified_chain (first loaded) (second loaded) o in
        let coords := rowMajor (width (first loaded)) (height (first loaded)) in
        let differing :=
          filter (λ c, matchesAt (first loaded) (second loaded) chain c = false) coords in
        (Done (Result (if bool_decide (differing = []) then None
                       else Some (getDiffArea differing))),
         mkWorld (heap w1) (events w1 ++ compareEvents coords))
  end.
Proof.
  intros Ho Hc. unfold exports_getDiffArea.
  unfold mbind at 1, Eff_bind at 1, mret at 1, Eff_ret at 1.
  unfold mbind at 1, Eff_bind at 1. rewrite (prepareOpts_run l w o Ho), Hc.
  unfold call_readPair. eff_unfold.
  destruct (readPair reference image) as [error|loaded]; [done|].
  unfold sizesDiffer. destruct (negb _ || negb _); [done|].
  cbn [heap]. rewrite lookup_insert_eq. cbn. unfold getDiffPixelsCoords.
  rewrite createComparator_prepared, scanPixels_full. cbn.
  destruct (filter _ _); done.
Qed.

End Operations.

Section OperationTheorems.

Context {CD : ColorDiff} {JS : Engine} {W : Wrappers} {Hst : Host}.

(** Claim C3, as amended: given options with a [tolerance] key and a
    truthy [strict], [looksSame], [getDiffArea] and [createDiff] throw the
    TypeError to the caller before any image is read, leaving the options
    object as it was; [colors] does not read [strict] and compares with the
    given tolerance. *)
Theorem strict_with_tolerance_throws (w : world) (l : loc) (o : object)
    (reference image : value) :
  heap w !! l = Some o →
  is_Some (o !! "tolerance") →
  truthy (prop o "strict") = true →
  looksSame reference image (Some l) w =
    (Thrown (TypeError strict_and_tolerance), w) ∧
  exports_getDiffArea reference image (Some l) w =
    (Thrown (TypeError strict_and_tolerance), w) ∧
  createDiff l w = (Thrown (TypeError strict_and_tolerance), w) ∧
  (∀ c1 c2, prop o "tolerance" ≠ VUndefined →
     colors c1 c2 (Some l) w =
     (Done (makeCIEDE2000Comparator (prop o "tolerance") (mkData c1 c2 None)), w)).
Proof.
  intros Ho Ht Hs.
  assert (conflicting o = true) as Hc.
  { unfold conflicting, hasIn. by rewrite bool_decide_eq_true_2, Hs. }
  split; [|split; [|split]]; cycle 3.
  { intros c1 c2 Hdef. unfold colors. eff_unfold. rewrite Ho. cbn.
    destruct (prop o "tolerance") eqn:Et; try done; cbn; rewrite Ho; cbn;
      by rewrite Et. }
  - unfold looksSame.
    unfold mbind at 1, Eff_bind at 1, mret at 1, Eff_ret at 1.
    unfold mbind at 1, Eff_bind at 1. by rewrite (prepareOpts_run l w o Ho), Hc.
  - unfold exports_getDiffArea.
    unfold mbind at 1, Eff_bind at 1, mret at 1, Eff_ret at 1.
    unfold mbind at 1, Eff_bind at 1. by rewrite (prepareOpts_run l w o Ho), Hc.
  - unfold createDiff. unfold mbind at 1, Eff_bind at 1.
    by rewrite (getToleranceFromOpts_run l w o Ho), Hc.
Qed.

End OperationTheorems.

(** The options [{strict: true, tolerance: 5}] make [looksSame] throw. *)
Lemma strict_with_tolerance_throws_witness :
  looksSame (CD := Sample.colorDiff) (JS := Sample.engine) (W := Sample.wrappers) (Hst := Sample.host)
    (VStr "black-1x1") (VStr "black-1x1") (Some 1%positive)
    (Sample.worldWith Sample.strictAndTolerance) =
  (Thrown (TypeError strict_and_tolerance), Sample.worldWith Sample.strictAndTolerance).
Proof.
  apply (strict_with_tolerance_throws (CD := Sample.colorDiff) (JS := Sample.engine) (W := Sample.wrappers)
           (Hst := Sample.host) (Sample.worldWith Sample.strictAndTolerance) 1%positive
           Sample.strictAndTolerance).
  - reflexivity.
  - exists (VNum (Finite 5)). reflexivity.
  - reflexivity.
Defined.

(** Against claim C3 as stated: given [{strict: true, tolerance: 5}], [colors]
    throws nothing; it answers true for two colors at distance 3, which an
    exact match would tell apart. *)
Lemma colors_takes_strict_with_tolerance :
  colors (CD := Sample.colorDiff) (JS := Sample.engine) Sample.black Sample.nearBlack (Some 1%positive)
    (Sample.worldWith Sample.strictAndTolerance) =
  (Done true, Sample.worldWith Sample.strictAndTolerance).
Proof. vm_compute. reflexivity. Qed.

Lemma iterateRect_total {St Res} width height (callback : Z → Z → St → St)
    (rowDoneCallback : Z → bool → St → St) (endCallback : St → Res) (s : St) :
  is_Some (iterateRect width height callback rowDoneCallback endCallback s).
Proof.
  destruct (Z.le_gt_cases 0 height) as [Hh|Hh].
  - rewrite iterateRect_rows by done. by eexists.
  - unfold iterateRect. replace (Z.to_nat height) with 0%nat by lia.
    rewrite processRow_S, bool_decide_eq_true_2 by lia. by eexists.
Qed.

Lemma buildDiffImage_total png1 png2 options :
  is_Some (buildDiffImage png1 png2 options).
Proof. apply iterateRect_total. Qed.

Section CreateDiffFacts.

Context {CD : ColorDiff} {JS : Engine} {Hst : Host}.

Lemma createDiff_start_done (o : object) loaded diffOptions w :
  ∃ a rest, createDiff_start o loaded diffOptions w =
            (Done a, mkWorld (heap w) (events w ++ rest)).
Proof.
  unfold createDiff_start.
  destruct (buildDiffImage_total (first loaded) (second loaded) diffOptions)
    as [[[image equal] ignored] ->].
  destruct equal.
  - exists (Resolved true (Some ignored)), []. unfold mret, Eff_ret.
    by rewrite app_nil_r, world_eta.
  - unfold call_save. eff_unfold.
    destruct (save image (prop o "diff")); by eexists _, [_].
Qed.

Lemma member_field v key w : member v key w = (Done (field w v key), w).
Proof. destruct v; cbn; eauto. Qed.

(** The part of [createDiff] that follows the configuration check. *)
Lemma createDiff_run l w o :
  heap w !! l = Some o → conflicting o = false →
  let tolerance := if hasIn o "tolerance" then prop o "tolerance" else VNum JND in
  let w1 := mkWorld (heap w)
              (events w ++ [ReadPair (prop o "reference") (prop o "current")]) in
  let mask_reference := field w (prop o "ignoreDifferentPixels") "reference" in
  let mask_current := field w (prop o "ignoreDifferentPixels") "current" in
  let w2 := mkWorld (heap w) (events w1 ++ [ReadPair mask_reference mask_current]) in
  createDiff l w =
  match readPair (prop o "reference") (prop o "current") with
  | inl error => (Done (Rejected error), w1)
  | inr loaded =>
      match createDiff_diffOptions o tolerance with
      | inl error => (Unanswered, mkWorld (heap w) (events w1 ++ [Uncaught error]))
      | inr diffOptions =>
          if truthy (prop o "ignoreDifferentPixels") then
            match readPair mask_reference mask_current with
            | inl error => (Done (Rejected error), w2)
            | inr otherPair =>
                createDiff_start o loaded
                  (mkDiffOptions (highlightColor diffOptions) (comparator diffOptions)
                     (Some (createDiff_ignoreDifferentPixels diffOptions
                              (first otherPair) (second otherPair)))) w2
            end
          else createDiff_start o loaded diffOptions w1
      end
  end.
Proof.
  intros Ho Hc tolerance w1 mask_reference mask_current w2.
  unfold createDiff. unfold mbind at 1, Eff_bind at 1.
  rewrite (getToleranceFromOpts_run l w o Ho), Hc.
  unfold call_readPair. eff_unfold. rewrite Ho. cbn. fold tolerance w1.
  destruct (readPair _ _) as [error|loaded]; [done|].
  destruct (createDiff_diffOptions o tolerance) as [error|diffOptions]; [done|].
  destruct (truthy (prop o "ignoreDifferentPixels")); [|done].
  rewrite !member_field. cbn.
  change (field w1 (prop o "ignoreDifferentPixels") "reference") with mask_reference.
  change (field w1 (prop o "ignoreDifferentPixels") "current") with mask_current.
  by destruct (readPair mask_reference mask_current).
Qed.

(** Without the configuration conflict [createDiff] throws nothing to its
    caller and reads the pair; it settles the promise unless the pair loads
    and the highlight color does not parse. *)
Lemma createDiff_outcome l w o :
  heap w !! l = Some o → conflicting o = false →
  ∃ r rest, createDiff l w =
    (r, mkWorld (heap w)
          (events w ++ ReadPair (prop o "reference") (prop o "current") :: rest)) ∧
    (∀ e, r ≠ Thrown e) ∧
    (is_Some (parseColor (prop o "highlightColor")) → ∃ a, r = Done a).
Proof.
  intros Ho Hc. rewrite (createDiff_run l w o Ho Hc). cbn zeta.
  destruct (readPair (prop o "reference") (prop o "current")) as [error|loaded];
    [by eexists _, []; eauto|].
  unfold createDiff_diffOptions, parseColorString.
  destruct (parseColor (prop o "highlightColor")) as [rgb|]; cycle 1.
  { cbn. eexists _, [_]. split; [by rewrite <- app_assoc|]. split; [done|].
    by intros [? ?]. }
  cbn.
  destruct (truthy (prop o "ignoreDifferentPixels")).
  - destruct (readPair _ _) as [error|other].
    + eexists _, [_]. split; [by rewrite <- app_assoc|]. eauto.
    + match goal with |- context [createDiff_start ?a ?b ?c ?d] =>
        destruct (createDiff_start_done a b c d) as (res & rest & ->) end.
      eexists _, (_ :: rest). cbn. split; [by rewrite <- !app_assoc|]. eauto.
  - match goal with |- context [createDiff_start ?a ?b ?c ?d] =>
      destruct (createDiff_start_done a b c d) as (res & rest & ->) end.
    eexists _, rest. cbn. split; [by rewrite <- !app_assoc|]. eauto.
Qed.

End CreateDiffFacts.


Section OperationTheorems2.

Context {CD : ColorDiff} {JS : Engine} {W : Wrappers} {Hst : Host}.


(** Claim C10: after [looksSame] or [getDiffArea] has run on an options
    object of the caller, that object holds a [tolerance] (2.3 when the key
    was absent, its former value otherwise) and holds
    [ignoreAntialiasing: true] when that option was undefined; its other
    keys are as they were. *)
Theorem options_object_is_mutated (reference image : value) (l : loc)
    (w : world) (o : object) :
  heap w !! l = Some o → conflicting o = false →
  heap (looksSame reference image (Some l) w).2 !! l = Some (prepared o) ∧
  heap (exports_getDiffArea reference image (Some l) w).2 !! l = Some (prepared o) ∧
  (o !! "tolerance" = None → prepared o !! "tolerance" = Some (VNum JND)) ∧
  (∀ t, o !! "tolerance" = Some t → prepared o !! "tolerance" = Some t) ∧
  (prop o "ignoreAntialiasing" = VUndefined →
     prepared o !! "ignoreAntialiasing" = Some (VBool true)) ∧
  (prop o "ignoreAntialiasing" ≠ VUndefined →
     prepared o !! "ignoreAntialiasing" = o !! "ignoreAntialiasing") ∧
  (∀ k, k ≠ "tolerance" → k ≠ "ignoreAntialiasing" → prepared o !! k = o !! k).
Proof.
  intros Ho Hc. split; [|split].
  - rewrite (looksSame_run reference image l w o Ho Hc). cbn zeta.
    destruct (readPair reference image) as [?|loaded]; [|destruct (sizesDiffer loaded)];
      cbn; apply lookup_insert_eq.
  - rewrite (exports_getDiffArea_run reference image l w o Ho Hc). cbn zeta.
    destruct (readPair reference image) as [?|loaded]; [|destruct (sizesDiffer loaded)];
      cbn; apply lookup_insert_eq.
  - unfold prepared.
    rewrite (prop_insert_ne o "tolerance" "ignoreAntialiasing") by done.
    repeat split.
    + intros Hno. unfold hasIn. rewrite bool_decide_eq_false_2
        by (rewrite Hno; by intros [? ?]).
      destruct (prop o "ignoreAntialiasing");
        rewrite ?lookup_insert_ne by done; apply lookup_insert_eq.
    + intros t Ht.
      assert ((if hasIn o "tolerance" then prop o "tolerance" else VNum JND) = t) as ->.
      { unfold hasIn, prop. rewrite Ht. by rewrite bool_decide_eq_true_2 by eauto. }
      destruct (prop o "ignoreAntialiasing");
        rewrite ?lookup_insert_ne by done; apply lookup_insert_eq.
    + intros ->. apply lookup_insert_eq.
    + intros Hdef. unfold prop in *.
      destruct (o !! "ignoreAntialiasing") as [[]|] eqn:E; cbn in *; try done;
        by rewrite lookup_insert_ne.
    + intros k H1 H2. destruct (prop o "ignoreAntialiasing");
        by rewrite ?lookup_insert_ne by done.
Qed.

End OperationTheorems2.


(** The empty options object [{}] after a call of [looksSame]. *)
Lemma options_object_is_mutated_witness :
  heap (looksSame (CD := Sample.colorDiff) (JS := Sample.engine) (W := Sample.wrappers) (Hst := Sample.host)
          (VStr "black-1x1") (VStr "black-1x1") (Some 1%positive)
          (Sample.worldWith ∅)).2 !! 1%positive = Some (prepared ∅) ∧
  prepared ∅ !! "tolerance" = Some (VNum JND) ∧
  prepared ∅ !! "ignoreAntialiasing" = Some (VBool true).
Proof.
  assert (heap (Sample.worldWith ∅) !! 1%positive = Some ∅) as Hheap
    by (vm_compute; reflexivity).
  assert (conflicting ∅ = false) as Hconflict by (vm_compute; reflexivity).
  destruct (options_object_is_mutated (CD := Sample.colorDiff) (JS := Sample.engine) (W := Sample.wrappers)
              (Hst := Sample.host) (VStr "black-1x1") (VStr "black-1x1") 1%positive
              (Sample.worldWith ∅) ∅ Hheap Hconflict)
    as (Hafter & _ & Htolerance & _ & Hantialiasing & _).
  split; [exact Hafter|].
  split; [apply Htolerance | apply Hantialiasing]; vm_compute; reflexivity.
Defined.

Lemma num_lt_of_Z a b : num_lt (num_of_Z a) (num_of_Z b) = (a <? b).
Proof. unfold num_of_Z, num_lt, Qltb, inject_Z. cbn. by rewrite !Z.mul_1_r. Qed.

Lemma num_extent_of_Z a b :
  num_add (num_sub (num_of_Z b) (num_of_Z a)) (Finite 1) = num_of_Z (b - a + 1).
Proof.
  unfold num_of_Z, num_add, num_sub, num_neg, inject_Z, Qplus, Qopp. cbn.
  do 2 f_equal. lia.
Qed.

Lemma Math_min_of_Z z zs :
  ∃ m, Math_min (num_of_Z <$> z :: zs) = num_of_Z m ∧ m ∈ z :: zs ∧
       ∀ k, k ∈ z :: zs → m ≤ k.
Proof.
  revert z. induction zs as [|z' zs IH]; intros z.
  - exists z. split; [done|]. split; [set_solver|]. intros k Hk.
    apply list_elem_of_singleton in Hk. lia.
  - destruct (IH z') as (m & Hm & Hin & Hle).
    rewrite fmap_cons. unfold Math_min in *. cbn [foldr]. rewrite Hm.
    change (match num_of_Z z with NaN => NaN | _ => _ end)
      with (if num_lt (num_of_Z z) (num_of_Z m) then num_of_Z z else num_of_Z m).
    rewrite num_lt_of_Z. destruct (Z.ltb_spec z m).
    + exists z. split; [done|]. split; [set_solver|]. intros k Hk.
      apply elem_of_cons in Hk as [->|Hk]; [lia|]. specialize (Hle k Hk). lia.
    + exists m. split; [done|]. split; [set_solver|]. intros k Hk.
      apply elem_of_cons in Hk as [->|Hk]; [lia|]. by apply Hle.
Qed.

Lemma Math_max_of_Z z zs :
  ∃ m, Math_max (num_of_Z <$> z :: zs) = num_of_Z m ∧ m ∈ z :: zs ∧
       ∀ k, k ∈ z :: zs → k ≤ m.
Proof.
  revert z. induction zs as [|z' zs IH]; intros z.
  - exists z. split; [done|]. split; [set_solver|]. intros k Hk.
    apply list_elem_of_singleton in Hk. lia.
  - destruct (IH z') as (m & Hm & Hin & Hle).
    rewrite fmap_cons. unfold Math_max in *. cbn [foldr]. rewrite Hm.
    change (match num_of_Z z with NaN => NaN | _ => _ end)
      with (if num_lt (num_of_Z z) (num_of_Z m) then num_of_Z m else num_of_Z z).
    rewrite num_lt_of_Z. destruct (Z.ltb_spec z m).
    + exists m. split; [done|]. split; [set_solver|]. intros k Hk.
      apply elem_of_cons in Hk as [->|Hk]; [lia|]. by apply Hle.
    + exists z. split; [done|]. split; [set_solver|]. intros k Hk.
      apply elem_of_cons in Hk as [->|Hk]; [lia|]. specialize (Hle k Hk). lia.
Qed.

(** The rectangle is the least one that covers every coordinate. *)
Lemma getDiffArea_bounding (coords : list (Z * Z)) :
  coords ≠ [] →
  ∃ left right top bottom : Z,
    getDiffArea coords =
      Rect.mk (num_of_Z left) (num_of_Z top)
              (num_of_Z (right - left + 1)) (num_of_Z (bottom - top + 1)) ∧
    (∀ c, c ∈ coords → left ≤ c.1 ≤ right ∧ top ≤ c.2 ≤ bottom) ∧
    left ∈ coords.*1 ∧ right ∈ coords.*1 ∧ top ∈ coords.*2 ∧ bottom ∈ coords.*2.
Proof.
  destruct coords as [|c coords]; [done|]. intros _.
  destruct (Math_min_of_Z c.1 (coords.*1)) as (left & Eleft & Hleft & Hleft').
  destruct (Math_max_of_Z c.1 (coords.*1)) as (right & Eright & Hright & Hright').
  destruct (Math_min_of_Z c.2 (coords.*2)) as (top & Etop & Htop & Htop').
  destruct (Math_max_of_Z c.2 (coords.*2)) as (bottom & Ebottom & Hbottom & Hbottom').
  exists left, right, top, bottom. unfold getDiffArea. cbn zeta.
  assert ((λ k : Z * Z, num_of_Z k.1) <$> c :: coords = num_of_Z <$> c.1 :: coords.*1)
    as -> by (by rewrite <- fmap_cons, <- list_fmap_compose).
  assert ((λ k : Z * Z, num_of_Z k.2) <$> c :: coords = num_of_Z <$> c.2 :: coords.*2)
    as -> by (by rewrite <- fmap_cons, <- list_fmap_compose).
  rewrite Eleft, Eright, Etop, Ebottom, !num_extent_of_Z.
  rewrite <- !fmap_cons in *.
  split; [done|]. split; [|done].
  intros k Hk. split; split.
  - apply Hleft'. by apply list_elem_of_fmap_2.
  - apply Hright'. by apply list_elem_of_fmap_2.
  - apply Htop'. by apply list_elem_of_fmap_2.
  - apply Hbottom'. by apply list_elem_of_fmap_2.
Qed.

Section OperationTheorems3.

Context {CD : ColorDiff} {JS : Engine} {W : Wrappers} {Hst : Host}.


End OperationTheorems3.



Section OperationTheorems4.

Context {CD : ColorDiff} {JS : Engine} {W : Wrappers} {Hst : Host}.


(** Claim C4, as amended: a negative tolerance is no configuration error.
    With [strict] unset, [getToleranceFromOpts] returns it as it is;
    [looksSame], [getDiffArea] and [createDiff] throw nothing and go on to
    read the images ([createDiff] settling its promise whenever the
    highlight color parses); [colors] compares with it.  Whatever the
    options object, the only error that one of the operations throws to its
    caller is that of [strict] with [tolerance], and [colors] throws none. *)
Theorem negative_tolerance_is_accepted (reference image : value) (l : loc)
    (w : world) (o : object) (t : number) :
  heap w !! l = Some o →
  o !! "tolerance" = Some (VNum t) → num_lt t (Finite 0) = true →
  truthy (prop o "strict") = false →
  getToleranceFromOpts l w = (Done (VNum t), w) ∧
  (∃ a w', looksSame reference image (Some l) w = (Done a, w') ∧
           ∃ rest, events w' = events w ++ ReadPair reference image :: rest) ∧
  (∃ a w', exports_getDiffArea reference image (Some l) w = (Done a, w') ∧
           ∃ rest, events w' = events w ++ ReadPair reference image :: rest) ∧
  (∃ r w', createDiff l w = (r, w') ∧ (∀ e, r ≠ Thrown e) ∧
           (is_Some (parseColor (prop o "highlightColor")) → ∃ a, r = Done a) ∧
           ∃ rest, events w' =
                   events w ++ ReadPair (prop o "reference") (prop o "current") :: rest) ∧
  (∀ c1 c2, colors c1 c2 (Some l) w =
            (Done (makeCIEDE2000Comparator (VNum t) (mkData c1 c2 None)), w)) ∧
  (∀ (l' : loc) (o' : object) (w0 w0' : world) (e : Error) (reference' image' : value),
     heap w0 !! l' = Some o' →
     looksSame reference' image' (Some l') w0 = (Thrown e, w0') ∨
     exports_getDiffArea reference' image' (Some l') w0 = (Thrown e, w0') ∨
     createDiff l' w0 = (Thrown e, w0') →
     e = TypeError strict_and_tolerance ∧
     is_Some (o' !! "tolerance") ∧ truthy (prop o' "strict") = true) ∧
  (∀ c1 c2 opts w0 e w0', colors c1 c2 opts w0 ≠ (Thrown e, w0')).
Proof.
  intros Ho Ht _ Hs.
  assert (conflicting o = false) as Hc.
  { unfold conflicting. by rewrite Hs, andb_false_r. }
  assert (prop o "tolerance" = VNum t) as Hp by (unfold prop; by rewrite Ht).
  split; [|split; [|split; [|split; [|split; [|split]]]]].
  - rewrite (getToleranceFromOpts_run l w o Ho), Hc. unfold hasIn.
    by rewrite bool_decide_eq_true_2, Hp by eauto.
  - rewrite (looksSame_run reference image l w o Ho Hc). cbn zeta.
    destruct (readPair reference image) as [?|loaded]; [|destruct (sizesDiffer loaded)];
      eexists _, _; (split; [reflexivity|]); cbn; first [by exists [] | eexists; by rewrite <- app_assoc].
  - rewrite (exports_getDiffArea_run reference image l w o Ho Hc). cbn zeta.
    destruct (readPair reference image) as [?|loaded]; [|destruct (sizesDiffer loaded)];
      eexists _, _; (split; [reflexivity|]); cbn; first [by exists [] | eexists; by rewrite <- app_assoc].
  - destruct (createDiff_outcome l w o Ho Hc) as (r & rest & -> & Hr & Hdone).
    eexists _, _. split; [reflexivity|]. split; [exact Hr|]. split; [exact Hdone|].
    by exists rest.
  - intros c1 c2. unfold colors. eff_unfold. rewrite Ho. cbn. rewrite Hp. cbn.
    rewrite Ho. cbn. by rewrite Hp.
  - intros l' o' w0 w0' e reference' image' Ho' Hthrown.
    destruct (conflicting o') eqn:Hc'.
    + unfold conflicting, hasIn in Hc'. apply andb_prop in Hc' as [Hk Hs'].
      apply bool_decide_eq_true_1 in Hk. split; [|done].
      assert (conflicting o' = true) as Hc'.
      { unfold conflicting, hasIn. by rewrite bool_decide_eq_true_2, Hs'. }
      destruct Hthrown as [Hrun|[Hrun|Hrun]]; revert Hrun.
      * unfold looksSame.
        unfold mbind at 1, Eff_bind at 1, mret at 1, Eff_ret at 1.
        unfold mbind at 1, Eff_bind at 1.
        rewrite (prepareOpts_run l' w0 o' Ho'), Hc'. by intros [= <- _].
      * unfold exports_getDiffArea.
        unfold mbind at 1, Eff_bind at 1, mret at 1, Eff_ret at 1.
        unfold mbind at 1, Eff_bind at 1.
        rewrite (prepareOpts_run l' w0 o' Ho'), Hc'. by intros [= <- _].
      * unfold createDiff. unfold mbind at 1, Eff_bind at 1.
        rewrite (getToleranceFromOpts_run l' w0 o' Ho'), Hc'. by intros [= <- _].
    + exfalso. destruct Hthrown as [Hrun|[Hrun|Hrun]]; revert Hrun.
      * rewrite (looksSame_run reference' image' l' w0 o' Ho' Hc'). cbn zeta.
        destruct (readPair reference' image') as [?|loaded'];
          [|destruct (sizesDiffer loaded')]; done.
      * rewrite (exports_getDiffArea_run reference' image' l' w0 o' Ho' Hc'). cbn zeta.
        destruct (readPair reference' image') as [?|loaded'];
          [|destruct (sizesDiffer loaded')]; done.
      * destruct (createDiff_outcome l' w0 o' Ho' Hc') as (r & rest & -> & Hr & _).
        intros [= -> _]. by apply (Hr e).
  - intros c1 c2 opts w0 e w0'. unfold colors. eff_unfold.
    destruct opts as [l'|]; cbn.
    + destruct (prop (default ∅ (heap w0 !! l')) "tolerance"); done.
    + unfold newObject. cbn. rewrite lookup_insert_eq. cbn. done.
Qed.

End OperationTheorems4.



(** The options [{tolerance: -1}]. *)
Lemma negative_tolerance_is_accepted_witness :
  getToleranceFromOpts 1%positive (Sample.worldWith Sample.negativeTolerance) =
  (Done (VNum (Finite (-1))), Sample.worldWith Sample.negativeTolerance).
Proof.
  apply (negative_tolerance_is_accepted (CD := Sample.colorDiff) (JS := Sample.engine) (W := Sample.wrappers)
           (Hst := Sample.host) (VStr "black-1x1") (VStr "black-1x1") 1%positive
           (Sample.worldWith Sample.negativeTolerance) Sample.negativeTolerance
           (Finite (-1)));
    vm_compute; reflexivity.
Defined.

(** Against claim C4 as stated: given [{tolerance: -1}], [looksSame] throws
    nothing; it reads the pair, compares the pixel and answers. *)
Lemma looksSame_takes_negative_tolerance :
  let run := looksSame (CD := Sample.colorDiff) (JS := Sample.engine) (W := Sample.wrappers) (Hst := Sample.host)
               (VStr "black-1x1") (VStr "black-1x1") (Some 1%positive)
               (Sample.worldWith Sample.negativeTolerance) in
  run.1 = Done (Result true) ∧
  events run.2 = [ReadPair (VStr "black-1x1") (VStr "black-1x1"); Compare 0 0].
Proof. vm_compute. done. Qed.

(** ** The diff-image builder *)

Lemma elem_of_rowMajor w h x y :
  (x, y) ∈ rowMajor w h ↔ 0 ≤ x < w ∧ 0 ≤ y < h.
Proof.
  unfold rowMajor. rewrite list_elem_of_bind. split.
  - intros (y' & Hx & Hy). apply list_elem_of_fmap in Hx as (x' & [= -> ->] & Hx).
    apply elem_of_seqZ in Hx, Hy. lia.
  - intros [Hx Hy]. exists y. split; [|apply elem_of_seqZ; lia].
    apply list_elem_of_fmap. exists x. split; [done|]. apply elem_of_seqZ. lia.
Qed.

Lemma count_two (P : Z → Z → bool) (l : list (Z * Z)) (a b : Z * Z) :
  a ≠ b → a ∈ l → b ∈ l → P a.1 a.2 = true → P b.1 b.2 = true → 2 ≤ count P l.
Proof.
  intros Hne Ha Hb Pa Pb. unfold count.
  assert ([a; b] ⊆+ filter (λ c, P c.1 c.2 = true) l) as Hsub.
  { apply NoDup_submseteq.
    - apply NoDup_cons. split; [set_solver|]. apply NoDup_singleton.
    - intros c Hc. apply list_elem_of_filter.
      apply elem_of_cons in Hc as [->|Hc]; [done|].
      apply list_elem_of_singleton in Hc as ->. done. }
  apply submseteq_length in Hsub. cbn in Hsub. lia.
Qed.

Lemma rendered_elem_of c x y color alpha :
  rendered c x y = Some (color, alpha) → mkCall x y color alpha ∈ calls c.
Proof.
  unfold rendered. intros Hr. apply fmap_Some in Hr as (k & Hfind & Hk).
  apply find_some in Hfind as [Hin Hat]. apply andb_prop in Hat as [Hx Hy].
  apply Z.eqb_eq in Hx, Hy. destruct k as [kx ky kc ka]. cbn in *.
  injection Hk as -> ->. subst. by apply list_elem_of_In.
Qed.

Section BuilderTheorems.

Variable png1 png2 : PNG.
Variable options : DiffOptions.

Local Abbreviation flag := (flagged png1 png2 options).
Local Abbreviation neighbor := (flaggedNeighbor png1 png2 options).
Local Abbreviation lone := (isolated png1 png2 options).
Local Abbreviation highlight := (highlightColor options).

(** Claim C2: on rasters of the same size, a flagged pixel ends repainted
    with its original color exactly when none of its eight neighbors is
    flagged, and highlighted otherwise; the counter ends at the number of
    flagged pixels less the number of pixels so retracted.  A flagged pixel
    that is the only one leaves the counter at 0 and shows its original
    color; two flagged pixels side by side both stay highlighted and
    counted. *)
Theorem isolated_pixels_are_retracted :
  width png1 = width png2 → height png1 = height png2 →
  0 ≤ width png1 → 0 ≤ height png1 →
  let coords := rowMajor (width png1) (height png1) in
  ∃ s,
    iterateRect (width png1) (height png1) (pixelCallback png1 png2 options)
      (rowDone png1) (λ s, s) (initialBuild png1 png2) = Some s ∧
    buildDiffImage png1 png2 options =
      Some (result s, differences s =? 0, pixelIgnored s) ∧
    (∀ x y, flag x y = true →
       (rendered (result s) x y = Some (getPixel png1 x y, Some 100) ↔
          neighbor x y = false) ∧
       (rendered (result s) x y = Some (highlight, None) ↔
          neighbor x y = true)) ∧
    differences s = count flag coords - count lone coords ∧
    (∀ x y, flag x y = true →
       (∀ x' y', flag x' y' = true → x' = x ∧ y' = y) →
       differences s = 0 ∧
       rendered (result s) x y = Some (getPixel png1 x y, Some 100)) ∧
    (∀ x y, flag x y = true → flag (x + 1) y = true →
       rendered (result s) x y = Some (highlight, None) ∧
       rendered (result s) (x + 1) y = Some (highlight, None) ∧
       2 ≤ differences s).
Proof.
  intros Hw Hh Hw0 Hh0 coords.
  destruct (buildDiffImage_final png1 png2 options) as (s & Hrun & Hbuild & Hd & Hr & _);
    [lia..|].
  replace (Z.max (width png1) (width png2)) with (width png1) in * by lia.
  replace (Z.max (height png1) (height png2)) with (height png1) in * by lia.
  fold coords in Hd.
  assert (∀ x y, flag x y = true →
            rendered (result s) x y =
            Some (if neighbor x y then (highlight, None)
                  else (getPixel png1 x y, Some 100))) as Hshown.
  { intros x y Hf. pose proof (flagged_bounds _ _ _ _ _ Hf) as [Hx Hy].
    rewrite Hr by lia. unfold final, isolated, painted, original. rewrite Hf.
    destruct (Z.leb_spec (Z.min (width png1) (width png2)) x); [lia|].
    destruct (Z.leb_spec (Z.min (height png1) (height png2)) y); [lia|].
    cbn. by destruct (neighbor x y). }
  assert (∀ x y, flag x y = true → (x, y) ∈ coords) as Hin.
  { intros x y Hf. apply elem_of_rowMajor.
    pose proof (flagged_bounds _ _ _ _ _ Hf). lia. }
  exists s. split; [exact Hrun|]. split; [exact Hbuild|].
  split; [|split; [|split]].
  - intros x y Hf. rewrite (Hshown x y Hf).
    destruct (neighbor x y); split; split; congruence.
  - rewrite Hd, (count_flagged_split png1 png2 options coords). lia.
  - intros x y Hf Honly.
    assert (∀ x' y', retained png1 png2 options x' y' = false) as Hnone.
    { intros x' y'. unfold retained, flaggedNeighbor.
      destruct (flag x' y') eqn:E; [|done].
      destruct (Honly x' y' E) as [-> ->]. cbn.
      repeat match goal with
             | |- context [flagged png1 png2 options ?a ?b] =>
                 let E' := fresh in
                 destruct (flagged png1 png2 options a b) eqn:E';
                 [apply Honly in E'; lia|]
             end.
      done. }
    split.
    + rewrite Hd. unfold count. rewrite filter_none; [done|].
      intros [x' y'] _. cbn. by rewrite Hnone.
    + rewrite (Hshown x y Hf).
      specialize (Hnone x y). unfold retained in Hnone. rewrite Hf in Hnone.
      cbn in Hnone. by rewrite Hnone.
  - intros x y Hf Hf'.
    assert (neighbor x y = true) as Hn.
    { unfold flaggedNeighbor. rewrite Hf'. by rewrite !orb_true_r. }
    assert (neighbor (x + 1) y = true) as Hn'.
    { unfold flaggedNeighbor. replace (x + 1 - 1) with x by lia.
      rewrite Hf. by rewrite !orb_true_r. }
    rewrite (Hshown x y Hf), (Hshown (x + 1) y Hf'), Hn, Hn'.
    split; [done|]. split; [done|]. rewrite Hd.
    apply (count_two _ _ (x, y) (x + 1, y)).
    + intros [= ?]. lia.
    + by apply Hin.
    + by apply Hin.
    + unfold retained. cbn. by rewrite Hf, Hn.
    + unfold retained. cbn. by rewrite Hf', Hn'.
Qed.

End BuilderTheorems.

(** A 3x3 canvas whose center pixel alone mismatches. *)
Lemma isolated_pixels_are_retracted_witness :
  let png1 := Sample.solid 3 3 Sample.black in
  let png2 := Sample.dotted 3 3 Sample.black 1 1 Sample.white in
  let options := mkDiffOptions Sample.pink areColorsSame None in
  ∃ s, buildDiffImage png1 png2 options =
         Some (result s, differences s =? 0, pixelIgnored s) ∧
       differences s = 0 ∧
       rendered (result s) 1 1 = Some (Sample.black, Some 100).
Proof.
  intros png1 png2 options.
  destruct (isolated_pixels_are_retracted png1 png2 options)
    as (s & _ & Hbuild & _ & _ & Hsingle & _); [reflexivity | reflexivity | cbn; lia | cbn; lia |].
  exists s. split; [exact Hbuild|]. apply (Hsingle 1 1); [reflexivity|].
  intros x y Hf. unfold flagged in Hf. cbn in Hf.
  destruct (Z.eqb_spec x 1), (Z.eqb_spec y 1); try done;
    cbn in Hf; rewrite ?andb_false_r in Hf; done.
Defined.

Lemma foldl_preserves {A B} (P : A → Prop) (f : A → B → A) (l : list B) (a : A) :
  (∀ a b, P a → P (f a b)) → P a → P (foldl f a l).
Proof. intros Hf. revert a. induction l; cbn; auto. Qed.

Section ExtraRow.

Variable png1 png2 : PNG.
Variable options : DiffOptions.

Local Abbreviation w := (Z.max (width png1) (width png2)).
Local Abbreviation h := (Z.max (height png1) (height png2)).

Lemma pixelCallback_size x y s :
  canvas_height (result (pixelCallback png1 png2 options x y s)) =
  canvas_height (result s).
Proof.
  unfold pixelCallback.
  repeat match goal with |- context [if ?b then _ else _] => destruct b end;
    reflexivity.
Qed.

Lemma checkRow_size y s :
  canvas_height (result (checkRow png1 y s)) = canvas_height (result s).
Proof.
  unfold checkRow.
  apply (foldl_preserves (λ s', canvas_height (result s') = canvas_height (result s)));
    [|done].
  intros s' x <-. unfold checkPixel.
  repeat match goal with |- context [if ?b then _ else _] => destruct b end;
    reflexivity.
Qed.

Lemma rowTask_size s y :
  canvas_height (result (rowTask w h (pixelCallback png1 png2 options)
                           (rowDone png1) s y)) = canvas_height (result s).
Proof.
  unfold rowTask, rowDone.
  destruct (bool_decide (y >= h)); rewrite ?checkRow_size; cbn;
    rewrite checkRow_size;
    apply (foldl_preserves (λ s', canvas_height (result s') = canvas_height (result s)));
    try done; intros s' x <-; apply pixelCallback_size.
Qed.

(** Claim C9: on a canvas [w] wide and [h] high, [iterateRect] runs the
    callback over the rows 0 to [h] inclusive, that is over every [(x, y)]
    with [0 <= x < w] and [0 <= y <= h]; so [buildDiffImage] calls
    [setPixel] at row [h] of a canvas whose height is [h], for every column,
    with the highlight color; and a callback at row [h] changes nothing but
    the canvas: not the counter, not the row flags. *)
Theorem row_past_the_canvas_is_scanned :
  0 ≤ w → 0 ≤ h →
  (∀ (St : Type) (callback : Z → Z → St → St) (rowDoneCallback : Z → bool → St → St)
      (s : St),
     iterateRect w h callback rowDoneCallback (λ s, s) s =
     Some (foldl (λ s y, rowDoneCallback y (bool_decide (y >= h))
                           (foldl (λ s x, callback x y s) s (seqZ 0 w)))
             s (seqZ 0 (h + 1)))) ∧
  iterateRect w h (λ x y log, log ++ [(x, y)]) (λ _ _ log, log) (λ log, log) [] =
    Some (rowMajor w (h + 1)) ∧
  (∃ image equal ignored,
     buildDiffImage png1 png2 options = Some (image, equal, ignored) ∧
     canvas_height image = h ∧
     ∀ x, 0 ≤ x < w → mkCall x h (highlightColor options) None ∈ calls image) ∧
  (∀ x s, pixelCallback png1 png2 options x h s =
          with_result (setPixel x h (highlightColor options) None) s).
Proof.
  intros Hw Hh. split; [|split; [|split]].
  - intros St callback rowDoneCallback s. by rewrite iterateRect_rows.
  - rewrite iterateRect_rows by done. f_equal. unfold rowTask.
    assert (∀ (y : Z) (xs : list Z) (l : list (Z * Z)),
              foldl (λ s x, s ++ [(x, y)]) l xs = l ++ ((λ x, (x, y)) <$> xs)) as Hrow.
    { intros y xs. induction xs as [|x xs IHx] using rev_ind; intros l;
        [by rewrite app_nil_r|].
      rewrite foldl_snoc, IHx, fmap_app. cbn. by rewrite <- app_assoc. }
    assert (∀ n, 0 ≤ n →
              foldl (λ s y, foldl (λ s x, s ++ [(x, y)]) s (seqZ 0 w)) []
                (seqZ 0 n) = rowMajor w n) as Hrows.
    { intros n Hn. pattern n. apply natlike_ind; [| |exact Hn].
      - reflexivity.
      - intros m Hm IH. rewrite <- Z.add_1_r, rowMajor_succ, seqZ_app by lia.
        change (seqZ (0 + m) 1) with [0 + (0 + m)].
        by rewrite !Z.add_0_l, foldl_snoc, IH, Hrow. }
    apply Hrows. lia.
  - destruct (buildDiffImage_final png1 png2 options Hw Hh)
      as (s & Hrun & Hbuild & _ & _ & Hrow).
    exists (result s), (differences s =? 0), (pixelIgnored s).
    split; [exact Hbuild|]. split.
    + rewrite iterateRect_rows in Hrun by done. injection Hrun as <-.
      apply (foldl_preserves (λ s', canvas_height (result s') = h)); [|done].
      intros s' y Hs'. by rewrite rowTask_size.
    + intros x Hx. by apply rendered_elem_of, Hrow.
  - intros x s. unfold pixelCallback.
    destruct (Z.leb_spec (Z.min (height png1) (height png2)) h); [|lia].
    by rewrite orb_true_r.
Qed.

End ExtraRow.

(** Two equal 2x1 rasters: [setPixel] is called at row 1. *)
Lemma row_past_the_canvas_is_scanned_witness :
  ∃ image equal ignored,
    buildDiffImage (Sample.solid 2 1 Sample.black) (Sample.solid 2 1 Sample.black)
      (mkDiffOptions Sample.pink areColorsSame None) = Some (image, equal, ignored) ∧
    canvas_height image = 1 ∧
    ∀ x, 0 ≤ x < 2 → mkCall x 1 Sample.pink None ∈ calls image.
Proof.
  apply (row_past_the_canvas_is_scanned (Sample.solid 2 1 Sample.black)
           (Sample.solid 2 1 Sample.black)
           (mkDiffOptions Sample.pink areColorsSame None)); cbn; lia.
Defined.

(** Claim C1, at a 1x1 reference and a 2x1 candidate whose common pixel
    matches: the cell outside the smaller raster is painted with the
    highlight color but not counted, so [buildDiffImage] reports no
    difference and [createDiff], given a highlight color that parses,
    resolves to [{equal: true}], while [looksSame] answers false for the
    same pair. *)
Theorem size_mismatch_is_not_counted :
  (∃ image,
     buildDiffImage (Sample.solid 1 1 Sample.black) (Sample.solid 2 1 Sample.black)
       (mkDiffOptions Sample.pink areColorsSame None) = Some (image, true, false) ∧
     canvas_width image = 2 ∧
     rendered image 1 0 = Some (Sample.pink, None)) ∧
  (createDiff (CD := Sample.colorDiff) (JS := Sample.engine) (Hst := Sample.host) 1%positive
     (Sample.worldWith Sample.sizeMismatch)).1 =
    Done (Resolved true (Some false)) ∧
  (looksSame (CD := Sample.colorDiff) (JS := Sample.engine) (W := Sample.wrappers) (Hst := Sample.host)
     (VStr "black-1x1") (VStr "black-2x1") (Some 1%positive)
     (Sample.worldWith Sample.sizeMismatch)).1 = Done (Result false).
Proof.
  split; [|split]; [|vm_compute; reflexivity..].
  eexists. split; [vm_compute; reflexivity|]. split; vm_compute; reflexivity.
Qed.

(** * Further properties *)

(** ** The diff-image builder on any pair of rasters *)

Section BuilderAtLarge.

Variable png1 png2 : PNG.
Variable options : DiffOptions.

Local Abbreviation cw := (Z.max (width png1) (width png2)).
Local Abbreviation ch := (Z.max (height png1) (height png2)).
Local Abbreviation step := (rowTask cw ch (pixelCallback png1 png2 options) (rowDone png1)).

Lemma flagged_split x y :
  flagged png1 png2 options x y =
  mismatching png1 png2 options x y && negb (ignoredAt png1 png2 options x y).
Proof.
  unfold flagged, ignoredAt, mismatching.
  destruct (0 <=? x), (0 <=? y), (x <? _), (y <? _), (comparator options _),
    (match ignoreDifferentPixels options with Some _ => _ | None => _ end); done.
Qed.

Lemma pixelCallback_ignored x y s :
  0 ≤ x → 0 ≤ y →
  pixelIgnored (pixelCallback png1 png2 options x y s) =
  pixelIgnored s || ignoredAt png1 png2 options x y.
Proof.
  intros Hx Hy. unfold pixelCallback, ignoredAt, mismatching.
  destruct (Z.leb_spec 0 x); [|lia]. destruct (Z.leb_spec 0 y); [|lia].
  destruct (Z.leb_spec (Z.min (width png1) (width png2)) x);
    destruct (Z.leb_spec (Z.min (height png1) (height png2)) y); cbn [orb andb].
  1-3: first [ destruct (Z.ltb_spec x (Z.min (width png1) (width png2))); [lia|]
             | destruct (Z.ltb_spec y (Z.min (height png1) (height png2))); [lia|] ];
       rewrite ?andb_false_r; cbn; by rewrite orb_false_r.
  destruct (Z.ltb_spec x (Z.min (width png1) (width png2))); [|lia].
  destruct (Z.ltb_spec y (Z.min (height png1) (height png2))); [|lia].
  cbn [andb]. destruct (comparator options _); cbn; [by rewrite orb_false_r|].
  destruct (match ignoreDifferentPixels options with Some _ => _ | None => _ end);
    cbn; by rewrite ?orb_true_r, ?orb_false_r.
Qed.

Lemma rowScan_ignored y xs s :
  0 ≤ y → (∀ x, x ∈ xs → 0 ≤ x) →
  pixelIgnored (foldl (λ s x, pixelCallback png1 png2 options x y s) s xs) =
  pixelIgnored s || existsb (λ x, ignoredAt png1 png2 options x y) xs.
Proof.
  intros Hy. induction xs as [|x xs IH] using rev_ind; intros Hxs.
  - cbn. by rewrite orb_false_r.
  - rewrite foldl_snoc, pixelCallback_ignored, IH, existsb_app; cbn.
    + by rewrite orb_false_r, orb_assoc.
    + intros x' Hx'. apply Hxs. set_solver.
    + apply Hxs. set_solver.
    + done.
Qed.

Lemma checkRow_ignored y s : pixelIgnored (checkRow png1 y s) = pixelIgnored s.
Proof.
  unfold checkRow.
  by destruct (checkRow_fold png1 y (seqZ 0 (len (prevRow s))) s) as (_ & _ & _ & -> & _).
Qed.

Lemma rowTask_ignored s y :
  0 ≤ y →
  pixelIgnored (step s y) =
  pixelIgnored s || existsb (λ x, ignoredAt png1 png2 options x y) (seqZ 0 cw).
Proof.
  intros Hy. unfold rowTask, rowDone.
  rewrite <- (rowScan_ignored y (seqZ 0 cw) s Hy)
    by (intros x Hx; apply elem_of_seqZ in Hx; lia).
  cbn zeta. destruct (bool_decide (y >= ch)); rewrite ?checkRow_ignored;
    cbn [pixelIgnored]; by rewrite ?checkRow_ignored.
Qed.

Lemma ignoredAt_bounds x y :
  ignoredAt png1 png2 options x y = true → 0 ≤ x < cw ∧ 0 ≤ y < ch.
Proof.
  unfold ignoredAt, mismatching. intros H.
  apply andb_prop in H as [H _]. repeat (apply andb_prop in H as [H ?]). lia.
Qed.

Lemma rows_ignored n :
  0 ≤ n →
  pixelIgnored (foldl step (initialBuild png1 png2) (seqZ 0 n)) = true ↔
  ∃ x y, 0 ≤ y < n ∧ ignoredAt png1 png2 options x y = true.
Proof.
  intros Hn. pattern n. apply natlike_ind; [| |exact Hn].
  - cbn. split; [done|]. intros (x & y & ? & _). lia.
  - intros m Hm IH. rewrite <- Z.add_1_r, seqZ_app by lia.
    change (seqZ (0 + m) 1) with [0 + (0 + m)].
    rewrite !Z.add_0_l, foldl_snoc, rowTask_ignored by done.
    rewrite orb_true_iff, IH, existsb_exists. split.
    + intros [(x & y & Hy & Hi)|(x & _ & Hi)].
      * exists x, y. split; [lia|done].
      * exists x, m. split; [lia|done].
    + intros (x & y & Hy & Hi). destruct (decide (y = m)) as [->|Hne].
      * right. exists x. split; [|done]. apply list_elem_of_In, elem_of_seqZ.
        apply ignoredAt_bounds in Hi. lia.
      * left. exists x, y. split; [lia|done].
Qed.


Lemma pixelCallback_width x y s :
  canvas_width (result (pixelCallback png1 png2 options x y s)) =
  canvas_width (result s).
Proof.
  unfold pixelCallback.
  repeat match goal with |- context [if ?b then _ else _] => destruct b end;
    reflexivity.
Qed.

Lemma checkRow_width y s :
  canvas_width (result (checkRow png1 y s)) = canvas_width (result s).
Proof.
  unfold checkRow.
  apply (foldl_preserves (λ s', canvas_width (result s') = canvas_width (result s)));
    [|done].
  intros s' x <-. unfold checkPixel.
  repeat match goal with |- context [if ?b then _ else _] => destruct b end;
    reflexivity.
Qed.

Lemma rowTask_width s y : canvas_width (result (step s y)) = canvas_width (result s).
Proof.
  unfold rowTask, rowDone. cbn zeta.
  destruct (bool_decide (y >= ch)); rewrite ?checkRow_width; cbn [result];
    rewrite ?checkRow_width;
    apply (foldl_preserves (λ s', canvas_width (result s') = canvas_width (result s)));
    try done; intros s' x <-; apply pixelCallback_width.
Qed.

(** The whole of what the completion callback receives. *)
Lemma buildDiffImage_outcome :
  0 ≤ cw → 0 ≤ ch →
  ∃ s,
    buildDiffImage png1 png2 options =
      Some (result s, differences s =? 0, pixelIgnored s) ∧
    canvas_width (result s) = cw ∧ canvas_height (result s) = ch ∧
    differences s = count (retained png1 png2 options) (rowMajor cw ch) ∧
    (∀ x y, 0 ≤ x < cw → 0 ≤ y < ch →
            rendered (result s) x y = Some (final png1 png2 options x y)) ∧
    (pixelIgnored s = true ↔ ∃ x y, ignoredAt png1 png2 options x y = true).
Proof.
  intros Hw Hh.
  destruct (buildDiffImage_final png1 png2 options Hw Hh)
    as (s & Hrun & Hbuild & Hd & Hr & _).
  rewrite iterateRect_rows in Hrun by done. injection Hrun as <-.
  eexists. split; [exact Hbuild|]. split; [|split; [|split; [|split]]].
  - apply (foldl_preserves (λ s', canvas_width (result s') = cw)); [|done].
    intros s' y Hs'. by rewrite rowTask_width.
  - apply (foldl_preserves (λ s', canvas_height (result s') = ch)); [|done].
    intros s' y Hs'. by rewrite rowTask_size.
  - exact Hd.
  - exact Hr.
  - rewrite rows_ignored by lia. split.
    + intros (x & y & _ & Hi). by exists x, y.
    + intros (x & y & Hi). exists x, y. split; [|done].
      apply ignoredAt_bounds in Hi. lia.
Qed.

Lemma final_cases x y :
  final png1 png2 options x y =
  if outside png1 png2 x y || retained png1 png2 options x y
  then (highlightColor options, None)
  else (getPixel png1 x y, Some 100).
Proof.
  unfold final, isolated, retained, painted, original, outside.
  destruct (flagged png1 png2 options x y) eqn:Ef.
  - apply (flagged_bounds png1 png2 options) in Ef.
    destruct (Z.leb_spec (Z.min (width png1) (width png2)) x); [lia|].
    destruct (Z.leb_spec (Z.min (height png1) (height png2)) y); [lia|].
    by destruct (flaggedNeighbor png1 png2 options x y).
  - cbn. by rewrite orb_false_r.
Qed.

Lemma count_none (P : Z → Z → bool) (l : list (Z * Z)) :
  (∀ x y, (x, y) ∈ l → P x y = false) → count P l = 0.
Proof.
  intros Hno. unfold count. rewrite filter_none; [done|].
  intros [x y] Hin. cbn. by rewrite Hno.
Qed.

(** Property X1: whatever the sizes, every cell of the canvas is painted: with the
    highlight color where the coordinate lies outside the smaller raster or
    the pixel is flagged next to a flagged pixel, and with the color of the
    first raster at opacity 100 everywhere else. *)
Theorem every_cell_is_painted :
  0 ≤ cw → 0 ≤ ch →
  ∃ image equal ignored,
    buildDiffImage png1 png2 options = Some (image, equal, ignored) ∧
    canvas_width image = cw ∧ canvas_height image = ch ∧
    ∀ x y, 0 ≤ x < cw → 0 ≤ y < ch →
      rendered image x y =
      Some (if outside png1 png2 x y || retained png1 png2 options x y
            then (highlightColor options, None)
            else (getPixel png1 x y, Some 100)).
Proof.
  intros Hw Hh.
  destruct (buildDiffImage_outcome Hw Hh) as (s & Hb & Hcw & Hch & _ & Hr & _).
  eexists _, _, _. split; [exact Hb|]. split; [done|]. split; [done|].
  intros x y Hx Hy. by rewrite Hr, final_cases.
Qed.

(** Property X2: on two rasters of one size whose pixels all match, the builder
    reports no difference and no ignored pixel, and the canvas is the first
    raster at opacity 100. *)
Theorem matching_rasters_are_copied :
  width png1 = width png2 → height png1 = height png2 →
  0 ≤ width png1 → 0 ≤ height png1 →
  (∀ x y, 0 ≤ x < width png1 → 0 ≤ y < height png1 →
     comparator options (mkData (getPixel png1 x y) (getPixel png2 x y) None) = true) →
  ∃ image,
    buildDiffImage png1 png2 options = Some (image, true, false) ∧
    ∀ x y, 0 ≤ x < width png1 → 0 ≤ y < height png1 →
      rendered image x y = Some (getPixel png1 x y, Some 100).
Proof.
  intros Hw Hh Hw0 Hh0 Hsame.
  destruct buildDiffImage_outcome as (s & Hb & _ & _ & Hd & Hr & Hi); [lia..|].
  replace (Z.max (width png1) (width png2)) with (width png1) in * by lia.
  replace (Z.max (height png1) (height png2)) with (height png1) in * by lia.
  assert (∀ x y, mismatching png1 png2 options x y = false) as Hno.
  { intros x y. destruct (mismatching png1 png2 options x y) eqn:E; [|done].
    unfold mismatching in E. repeat (apply andb_prop in E as [E ?]).
    rewrite Hsame in * by lia. done. }
  assert (∀ x y, flagged png1 png2 options x y = false) as Hnf.
  { intros x y. by rewrite flagged_split, Hno. }
  assert (differences s = 0) as Hzero.
  { rewrite Hd. apply count_none. intros x y _. unfold retained. by rewrite Hnf. }
  assert (pixelIgnored s = false) as Hnone.
  { apply not_true_is_false. intros E. apply Hi in E as (x & y & E).
    unfold ignoredAt in E. by rewrite Hno in E. }
  exists (result s). rewrite Hb, Hzero, Hnone. split; [done|].
  intros x y Hx Hy. rewrite Hr, final_cases by done.
  unfold retained, outside. rewrite Hnf.
  destruct (Z.leb_spec (Z.min (width png1) (width png2)) x); [lia|].
  destruct (Z.leb_spec (Z.min (height png1) (height png2)) y); [lia|]. done.
Qed.

(** Property X3: the completion callback reports an ignored pixel exactly when the
    ignore predicate claims some pixel that mismatches inside both rasters;
    such a pixel is shown with the color of the first raster at opacity 100;
    without a predicate the report is false. *)
Theorem ignored_pixels_are_reported :
  0 ≤ cw → 0 ≤ ch →
  ∃ image equal ignored,
    buildDiffImage png1 png2 options = Some (image, equal, ignored) ∧
    (ignored = true ↔ ∃ x y, ignoredAt png1 png2 options x y = true) ∧
    (∀ x y, ignoredAt png1 png2 options x y = true →
       rendered image x y = Some (getPixel png1 x y, Some 100)) ∧
    (ignoreDifferentPixels options = None → ignored = false).
Proof.
  intros Hw Hh.
  destruct (buildDiffImage_outcome Hw Hh) as (s & Hb & _ & _ & _ & Hr & Hi).
  eexists _, _, _. split; [exact Hb|]. split; [exact Hi|]. split.
  - intros x y Hxy. pose proof (ignoredAt_bounds _ _ Hxy) as [Hx Hy].
    rewrite Hr, final_cases by done. unfold retained.
    rewrite flagged_split, Hxy, andb_false_r. cbn. rewrite orb_false_r.
    unfold ignoredAt, mismatching, outside in *.
    repeat (apply andb_prop in Hxy as [Hxy ?]).
    destruct (Z.leb_spec (Z.min (width png1) (width png2)) x); [lia|].
    destruct (Z.leb_spec (Z.min (height png1) (height png2)) y); [lia|]. done.
  - intros Hnone. apply not_true_is_false. intros E.
    apply Hi in E as (x & y & E). unfold ignoredAt in E. rewrite Hnone in E.
    by rewrite andb_false_r in E.
Qed.

Lemma masked_build :
  0 ≤ cw → 0 ≤ ch →
  (∀ x y, mismatching png1 png2 options x y = true →
          ignoredAt png1 png2 options x y = true) →
  ∃ image ignored,
    buildDiffImage png1 png2 options = Some (image, true, ignored) ∧
    (ignored = true ↔ ∃ x y, mismatching png1 png2 options x y = true).
Proof.
  intros Hw Hh Hmask.
  destruct (buildDiffImage_outcome Hw Hh) as (s & Hb & _ & _ & Hd & _ & Hi).
  assert (differences s = 0) as Hzero.
  { rewrite Hd. apply count_none. intros x y _. unfold retained.
    rewrite flagged_split.
    destruct (mismatching png1 png2 options x y) eqn:E; [|done].
    by rewrite (Hmask x y E). }
  eexists _, _. rewrite Hb, Hzero. split; [done|]. rewrite Hi. split.
  - intros (x & y & E). exists x, y. unfold ignoredAt in E.
    by apply andb_prop in E as [E _].
  - intros (x & y & E). exists x, y. by apply Hmask.
Qed.

(** Property X4: on rasters of one size, when the ignore predicate claims every
    mismatching pixel, no difference is counted: the builder reports
    equality, and it reports an ignored pixel exactly when some pixel
    mismatches. *)
Theorem masked_mismatches_do_not_count :
  width png1 = width png2 → height png1 = height png2 →
  0 ≤ width png1 → 0 ≤ height png1 →
  (∀ x y, mismatching png1 png2 options x y = true →
          ignoredAt png1 png2 options x y = true) →
  ∃ image ignored,
    buildDiffImage png1 png2 options = Some (image, true, ignored) ∧
    (ignored = true ↔ ∃ x y, mismatching png1 png2 options x y = true).
Proof. intros Hw Hh Hw0 Hh0. apply masked_build; lia. Qed.

End BuilderAtLarge.

(** Two equal 3x3 rasters. *)
Lemma matching_rasters_are_copied_witness :
  ∃ image,
    buildDiffImage (Sample.solid 3 3 Sample.black) (Sample.solid 3 3 Sample.black)
      (mkDiffOptions Sample.pink areColorsSame None) = Some (image, true, false) ∧
    ∀ x y, 0 ≤ x < 3 → 0 ≤ y < 3 →
      rendered image x y = Some (Sample.black, Some 100).
Proof.
  apply (matching_rasters_are_copied (Sample.solid 3 3 Sample.black)
           (Sample.solid 3 3 Sample.black)
           (mkDiffOptions Sample.pink areColorsSame None));
    [reflexivity | reflexivity | cbn; lia | cbn; lia | reflexivity].
Defined.

(** A 1x1 raster against a 2x1 raster. *)
Lemma every_cell_is_painted_witness :
  ∃ image equal ignored,
    buildDiffImage (Sample.solid 1 1 Sample.black) (Sample.solid 2 1 Sample.black)
      (mkDiffOptions Sample.pink areColorsSame None) = Some (image, equal, ignored) ∧
    canvas_width image = 2 ∧ canvas_height image = 1 ∧
    ∀ x y, 0 ≤ x < 2 → 0 ≤ y < 1 →
      rendered image x y =
      Some (if outside (Sample.solid 1 1 Sample.black) (Sample.solid 2 1 Sample.black) x y
               || retained (Sample.solid 1 1 Sample.black) (Sample.solid 2 1 Sample.black)
                    (mkDiffOptions Sample.pink areColorsSame None) x y
            then (Sample.pink, None)
            else (Sample.black, Some 100)).
Proof.
  apply (every_cell_is_painted (Sample.solid 1 1 Sample.black)
           (Sample.solid 2 1 Sample.black)
           (mkDiffOptions Sample.pink areColorsSame None)); cbn; lia.
Defined.

(** Black against white, with a predicate that claims every pixel. *)
Lemma ignored_pixels_are_reported_witness :
  ∃ image equal ignored,
    buildDiffImage (Sample.solid 2 1 Sample.black) (Sample.solid 2 1 Sample.white)
      (mkDiffOptions Sample.pink areColorsSame (Some (λ _ _, true))) =
      Some (image, equal, ignored) ∧
    rendered image 0 0 = Some (Sample.black, Some 100).
Proof.
  destruct (ignored_pixels_are_reported (Sample.solid 2 1 Sample.black)
              (Sample.solid 2 1 Sample.white)
              (mkDiffOptions Sample.pink areColorsSame (Some (λ _ _, true))))
    as (image & equal & ignored & Hb & _ & Hshown & _); [cbn; lia | cbn; lia |].
  exists image, equal, ignored. split; [exact Hb|]. apply Hshown. reflexivity.
Defined.

Lemma masked_mismatches_do_not_count_witness :
  ∃ image ignored,
    buildDiffImage (Sample.solid 2 1 Sample.black) (Sample.solid 2 1 Sample.white)
      (mkDiffOptions Sample.pink areColorsSame (Some (λ _ _, true))) =
      Some (image, true, ignored) ∧
    (ignored = true ↔
     ∃ x y, mismatching (Sample.solid 2 1 Sample.black) (Sample.solid 2 1 Sample.white)
              (mkDiffOptions Sample.pink areColorsSame (Some (λ _ _, true))) x y = true).
Proof.
  apply (masked_mismatches_do_not_count (Sample.solid 2 1 Sample.black)
           (Sample.solid 2 1 Sample.white)
           (mkDiffOptions Sample.pink areColorsSame (Some (λ _ _, true))));
    [reflexivity | reflexivity | cbn; lia | cbn; lia |].
  intros x y Hm. unfold ignoredAt. by rewrite Hm.
Defined.

(** ** The exported operations: failures, reuse and defaults *)

Lemma conflicting_without_tolerance (o : object) :
  o !! "tolerance" = None → conflicting o = false.
Proof.
  intros Hno. unfold conflicting, hasIn.
  by rewrite bool_decide_eq_false_2 by (rewrite Hno; by intros [? ?]).
Qed.

Lemma prepared_tolerance (o : object) :
  is_Some (prepared o !! "tolerance").
Proof.
  unfold prepared.
  destruct (prop (<["tolerance":=_]> o) "ignoreAntialiasing");
    rewrite ?lookup_insert_ne by done; rewrite lookup_insert_eq; eauto.
Qed.

Lemma prepared_strict (o : object) : prop (prepared o) "strict" = prop o "strict".
Proof.
  unfold prepared.
  destruct (prop (<["tolerance":=_]> o) "ignoreAntialiasing");
    by rewrite ?prop_insert_ne by done.
Qed.

Section Reuse.

Context {CD : ColorDiff} {JS : Engine} {W : Wrappers} {Hst : Host}.

Lemma looksSame_heap reference image l w o :
  heap w !! l = Some o → conflicting o = false →
  heap (looksSame reference image (Some l) w).2 = <[l := prepared o]> (heap w) ∧
  ∃ a, (looksSame reference image (Some l) w).1 = Done a.
Proof.
  intros Ho Hc. rewrite (looksSame_run reference image l w o Ho Hc). cbn zeta.
  destruct (readPair reference image) as [?|loaded]; [|destruct (sizesDiffer loaded)];
    cbn; eauto.
Qed.

Lemma exports_getDiffArea_heap reference image l w o :
  heap w !! l = Some o → conflicting o = false →
  heap (exports_getDiffArea reference image (Some l) w).2 = <[l := prepared o]> (heap w) ∧
  ∃ a, (exports_getDiffArea reference image (Some l) w).1 = Done a.
Proof.
  intros Ho Hc. rewrite (exports_getDiffArea_run reference image l w o Ho Hc). cbn zeta.
  destruct (readPair reference image) as [?|loaded]; [|destruct (sizesDiffer loaded)];
    cbn; eauto.
Qed.

(** Property X5: an options object with [strict] and no [tolerance] serves one call
    only.  The first [looksSame] answers and leaves [tolerance: 2.3] in the
    object; from then on [looksSame], [getDiffArea] and [createDiff] throw
    the TypeError on that object. *)
Theorem strict_options_serve_once (reference image : value) (l : loc)
    (w : world) (o : object) :
  heap w !! l = Some o →
  o !! "tolerance" = None → truthy (prop o "strict") = true →
  let first_call := looksSame reference image (Some l) w in
  let w' := first_call.2 in
  (∃ a, first_call.1 = Done a) ∧
  (∀ reference' image',
     looksSame reference' image' (Some l) w' =
       (Thrown (TypeError strict_and_tolerance), w') ∧
     exports_getDiffArea reference' image' (Some l) w' =
       (Thrown (TypeError strict_and_tolerance), w')) ∧
  createDiff l w' = (Thrown (TypeError strict_and_tolerance), w').
Proof.
  intros Ho Hno Hs first_call w'.
  pose proof (conflicting_without_tolerance o Hno) as Hc.
  destruct (looksSame_heap reference image l w o Ho Hc) as [Hheap Hdone].
  assert (heap w' !! l = Some (prepared o)) as Ho'.
  { unfold w', first_call. rewrite Hheap. apply lookup_insert_eq. }
  assert (conflicting (prepared o) = true) as Hc'.
  { unfold conflicting, hasIn.
    rewrite bool_decide_eq_true_2 by apply prepared_tolerance.
    by rewrite prepared_strict, Hs. }
  split; [exact Hdone|]. split; [intros reference' image'; split|].
  - unfold looksSame.
    unfold mbind at 1, Eff_bind at 1, mret at 1, Eff_ret at 1.
    unfold mbind at 1, Eff_bind at 1. by rewrite (prepareOpts_run l w' _ Ho'), Hc'.
  - unfold exports_getDiffArea.
    unfold mbind at 1, Eff_bind at 1, mret at 1, Eff_ret at 1.
    unfold mbind at 1, Eff_bind at 1. by rewrite (prepareOpts_run l w' _ Ho'), Hc'.
  - unfold createDiff. unfold mbind at 1, Eff_bind at 1.
    by rewrite (getToleranceFromOpts_run l w' _ Ho'), Hc'.
Qed.

Lemma prepared_idempotent (o : object) : prepared (prepared o) = prepared o.
Proof.
  unfold prepared at 1.
  assert (hasIn (prepared o) "tolerance" = true) as ->.
  { unfold hasIn. apply bool_decide_eq_true_2, prepared_tolerance. }
  destruct (prepared_tolerance o) as [t Ht].
  assert (<["tolerance" := prop (prepared o) "tolerance"]> (prepared o) = prepared o) as ->.
  { apply insert_id. unfold prop. by rewrite Ht. }
  unfold prepared.
  destruct (prop (<["tolerance":=_]> o) "ignoreAntialiasing") eqn:E;
    rewrite ?E; try done.
  by rewrite prop_insert_eq.
Qed.

(** Property X6: without [strict], preparing the options is idempotent: a second
    [looksSame] or [getDiffArea] on the same object throws nothing and
    leaves the object as the first call left it. *)
Theorem options_are_reusable (reference image reference' image' : value) (l : loc)
    (w : world) (o : object) :
  heap w !! l = Some o → truthy (prop o "strict") = false →
  let w' := (looksSame reference image (Some l) w).2 in
  (∃ a, (looksSame reference' image' (Some l) w').1 = Done a) ∧
  (∃ a, (exports_getDiffArea reference' image' (Some l) w').1 = Done a) ∧
  heap (looksSame reference' image' (Some l) w').2 = heap w' ∧
  heap (exports_getDiffArea reference' image' (Some l) w').2 = heap w'.
Proof.
  intros Ho Hs w'.
  assert (conflicting o = false) as Hc
    by (unfold conflicting; by rewrite Hs, andb_false_r).
  destruct (looksSame_heap reference image l w o Ho Hc) as [Hheap _].
  assert (heap w' !! l = Some (prepared o)) as Ho'.
  { unfold w'. rewrite Hheap. apply lookup_insert_eq. }
  assert (conflicting (prepared o) = false) as Hc'.
  { unfold conflicting. by rewrite prepared_strict, Hs, andb_false_r. }
  destruct (looksSame_heap reference' image' l w' _ Ho' Hc') as [Hheap1 Hdone1].
  destruct (exports_getDiffArea_heap reference' image' l w' _ Ho' Hc')
    as [Hheap2 Hdone2].
  split; [exact Hdone1|]. split; [exact Hdone2|].
  rewrite Hheap1, Hheap2, prepared_idempotent. split; by apply insert_id.
Qed.


End Reuse.

Section CreateDiffAtLarge.

Context {CD : ColorDiff} {JS : Engine} {Hst : Host}.

(** Property X8: [createDiff] writes a diff image only for a difference.  Without an
    ignore mask, with the pair loaded and the highlight color parsed, the
    events are the read and, only when the builder reports a difference, one
    save to [opts.diff]; the promise resolves to [{equal: true, pixelIgnored}]
    or [{equal: false}], or rejects with the error of the save. *)
Theorem createDiff_saves_only_a_difference (l : loc) (w : world) (o : object)
    (loaded : Pair) (diffOptions : DiffOptions) :
  heap w !! l = Some o → conflicting o = false →
  readPair (prop o "reference") (prop o "current") = inr loaded →
  truthy (prop o "ignoreDifferentPixels") = false →
  let tolerance := if hasIn o "tolerance" then prop o "tolerance" else VNum JND in
  let read := ReadPair (prop o "reference") (prop o "current") in
  createDiff_diffOptions o tolerance = inr diffOptions →
  ∃ image equal ignored,
    buildDiffImage (first loaded) (second loaded) diffOptions =
      Some (image, equal, ignored) ∧
    createDiff l w =
      if equal
      then (Done (Resolved true (Some ignored)),
            mkWorld (heap w) (events w ++ [read]))
      else (Done (match save image (prop o "diff") with
                  | Some error => Rejected error
                  | None => Resolved false None
                  end),
            mkWorld (heap w) (events w ++ [read; Save (prop o "diff")])).
Proof.
  intros Ho Hc Hread Hmask tolerance read Hoptions.
  destruct (buildDiffImage_total (first loaded) (second loaded) diffOptions)
    as [[[image equal] ignored] Hb].
  exists image, equal, ignored. split; [exact Hb|].
  rewrite (createDiff_run l w o Ho Hc). cbn zeta. fold tolerance.
  rewrite Hread, Hoptions, Hmask.
  unfold createDiff_start. rewrite Hb.
  destruct equal; [done|]. unfold call_save. eff_unfold.
  rewrite <- app_assoc. by destruct (save image (prop o "diff")).
Qed.

(** Property X9: [createDiff] never writes to an object: whatever it does, the heap
    is as before. *)
Theorem createDiff_leaves_the_options (l : loc) (w : world) (o : object) :
  heap w !! l = Some o → heap (createDiff l w).2 = heap w.
Proof.
  intros Ho. destruct (conflicting o) eqn:Hc.
  - unfold createDiff. unfold mbind at 1, Eff_bind at 1.
    by rewrite (getToleranceFromOpts_run l w o Ho), Hc.
  - by destruct (createDiff_outcome l w o Ho Hc) as (r & rest & -> & _).
Qed.


(** Property X11: a pair of one size masks itself.  When the ignore mask names the
    same two rasters as the pair compared, and the highlight color parses,
    every mismatch is ignored: the promise resolves to
    [{equal: true, pixelIgnored}] and nothing is saved; [pixelIgnored] tells
    whether some pixel mismatches. *)
Theorem a_pair_masks_itself (l lm : loc) (w : world) (o om : object) (loaded : Pair)
    (diffOptions : DiffOptions) :
  heap w !! l = Some o → conflicting o = false →
  readPair (prop o "reference") (prop o "current") = inr loaded →
  prop o "ignoreDifferentPixels" = VObj lm → heap w !! lm = Some om →
  readPair (prop om "reference") (prop om "current") = inr loaded →
  width (first loaded) = width (second loaded) →
  height (first loaded) = height (second loaded) →
  0 ≤ width (first loaded) → 0 ≤ height (first loaded) →
  let tolerance := if hasIn o "tolerance" then prop o "tolerance" else VNum JND in
  createDiff_diffOptions o tolerance = inr diffOptions →
  ∃ ignored,
    createDiff l w =
      (Done (Resolved true (Some ignored)),
       mkWorld (heap w)
         (events w ++ [ReadPair (prop o "reference") (prop o "current");
                       ReadPair (prop om "reference") (prop om "current")])) ∧
    (ignored = true ↔
     ∃ x y, 0 ≤ x < width (first loaded) ∧ 0 ≤ y < height (first loaded) ∧
            comparator diffOptions
              (mkData (getPixel (first loaded) x y) (getPixel (second loaded) x y) None)
            = false).
Proof.
  intros Ho Hc Hread Hmask Hom Hread' Hw Hh Hw0 Hh0 tolerance Hoptions.
  set (masked := mkDiffOptions (highlightColor diffOptions) (comparator diffOptions)
                   (Some (createDiff_ignoreDifferentPixels diffOptions
                            (first loaded) (second loaded)))).
  assert (∀ x y, mismatching (first loaded) (second loaded) masked x y = true →
                 ignoredAt (first loaded) (second loaded) masked x y = true) as Hall.
  { intros x y Hm. unfold ignoredAt. rewrite Hm. cbn.
    unfold mismatching in Hm. repeat (apply andb_prop in Hm as [Hm ?]).
    unfold createDiff_ignoreDifferentPixels. cbn zeta.
    destruct (Z.leb_spec (Z.min (width (first loaded)) (width (second loaded))) x);
      [lia|].
    destruct (Z.leb_spec (Z.min (height (first loaded)) (height (second loaded))) y);
      [lia|]. done. }
  destruct (masked_build (first loaded) (second loaded) masked)
    as (image & ignored & Hb & Hi); [lia | lia | exact Hall |].
  exists ignored. split.
  - rewrite (createDiff_run l w o Ho Hc). cbn zeta. fold tolerance.
    rewrite Hread, Hoptions, Hmask. cbn. rewrite Hom. cbn. rewrite Hread'.
    fold masked. unfold createDiff_start. rewrite Hb. cbn.
    by rewrite <- app_assoc.
  - rewrite Hi. split.
    + intros (x & y & Hm). exists x, y. unfold mismatching in Hm.
      repeat (apply andb_prop in Hm as [Hm ?]).
      split; [lia|]. split; [lia|]. by apply negb_true_iff.
    + intros (x & y & Hx & Hy & Hm). exists x, y. unfold mismatching.
      destruct (Z.leb_spec 0 x); [|lia]. destruct (Z.leb_spec 0 y); [|lia].
      destruct (Z.ltb_spec x (Z.min (width (first loaded)) (width (second loaded))));
        [|lia].
      destruct (Z.ltb_spec y (Z.min (height (first loaded)) (height (second loaded))));
        [|lia].
      cbn. by apply negb_true_iff.
Qed.


End CreateDiffAtLarge.

Lemma freshLoc_unused (w : world) (l : loc) (o : object) :
  heap w !! l = Some o → l ≠ freshLoc w.
Proof.
  intros Hl ->. unfold freshLoc in Hl.
  assert (fresh (dom (heap w)) ∈ dom (heap w)) as Hin by (apply elem_of_dom; eauto).
  by apply is_fresh in Hin.
Qed.

Section OmittedOptions.

Context {CD : ColorDiff} {JS : Engine} {W : Wrappers} {Hst : Host}.

(** Property X12: called without options, [looksSame] and [getDiffArea] work on an
    object of their own: they throw nothing, they leave every object of the
    caller as it was, and the defaults they prepare ([tolerance: 2.3],
    [ignoreAntialiasing: true]) end up in the new object. *)
Theorem omitted_options_use_a_new_object (reference image : value) (w : world) :
  let run := looksSame reference image None w in
  let run' := exports_getDiffArea reference image None w in
  (∃ a, run.1 = Done a) ∧ (∃ a, run'.1 = Done a) ∧
  (∀ l o, heap w !! l = Some o →
          heap run.2 !! l = Some o ∧ heap run'.2 !! l = Some o) ∧
  heap run.2 !! freshLoc w = Some (prepared ∅) ∧
  heap run'.2 !! freshLoc w = Some (prepared ∅).
Proof.
  intros run run'.
  set (w0 := mkWorld (<[freshLoc w := ∅]> (heap w)) (events w)).
  assert (run = looksSame reference image (Some (freshLoc w)) w0) as Hrun
    by reflexivity.
  assert (run' = exports_getDiffArea reference image (Some (freshLoc w)) w0) as Hrun'
    by reflexivity.
  assert (heap w0 !! freshLoc w = Some ∅) as H0 by apply lookup_insert_eq.
  assert (conflicting ∅ = false) as Hc
    by (apply conflicting_without_tolerance, lookup_empty).
  destruct (looksSame_heap reference image (freshLoc w) w0 ∅ H0 Hc) as [Hh Hd].
  destruct (exports_getDiffArea_heap reference image (freshLoc w) w0 ∅ H0 Hc)
    as [Hh' Hd'].
  rewrite <- Hrun in Hh, Hd. rewrite <- Hrun' in Hh', Hd'.
  split; [exact Hd|]. split; [exact Hd'|]. rewrite Hh, Hh'. cbn [heap w0].
  split; [|split; apply lookup_insert_eq].
  intros l o Hl. pose proof (freshLoc_unused w l o Hl).
  by rewrite !lookup_insert_ne.
Qed.

End OmittedOptions.

Lemma num_lt_trans a b c : num_lt a b = true → num_lt b c = true → num_lt a c = true.
Proof.
  destruct a as [| |x|], b as [| |y|], c as [| |z|]; cbn; try done.
  unfold Qltb. rewrite !Z.ltb_lt. apply Qlt_trans.
Qed.

Lemma exact_match_reflexive (c : Color) (p : option (Z * Z)) :
  areColorsSame (mkData c c p) = true.
Proof. unfold areColorsSame. cbn. by rewrite !Z.eqb_refl. Qed.

Section Tolerances.

Context {CD : ColorDiff} {JS : Engine}.

Lemma perceptual_unfold (t : value) (data : Data) :
  makeCIEDE2000Comparator t data =
  areColorsSame data ||
  num_lt (diff (rgb_to_lab (color1 data)) (rgb_to_lab (color2 data))) (to_number t).
Proof.
  unfold makeCIEDE2000Comparator, doColorsLookSame.
  by destruct (areColorsSame data).
Qed.

(** Property X13: an explicit [tolerance: undefined] is no request for the default.
    [getToleranceFromOpts] sees the key and returns [undefined], the prepared
    options keep it, and the perceptual comparator built from it is the
    exact match; [colors] alone replaces it by 2.3. *)
Theorem undefined_tolerance_is_exact_match (l : loc) (w : world) (o : object) :
  heap w !! l = Some o →
  o !! "tolerance" = Some VUndefined → truthy (prop o "strict") = false →
  getToleranceFromOpts l w = (Done VUndefined, w) ∧
  prop (prepared o) "tolerance" = VUndefined ∧
  (∀ data, makeCIEDE2000Comparator (prop (prepared o) "tolerance") data =
           areColorsSame data) ∧
  (∀ c1 c2, (colors c1 c2 (Some l) w).1 =
            Done (makeCIEDE2000Comparator (VNum JND) (mkData c1 c2 None))).
Proof.
  intros Ho Ht Hs.
  assert (prop o "tolerance" = VUndefined) as Hp by (unfold prop; by rewrite Ht).
  assert (hasIn o "tolerance" = true) as Hin
    by (unfold hasIn; apply bool_decide_eq_true_2; eauto).
  assert (prop (prepared o) "tolerance" = VUndefined) as Hp'.
  { unfold prepared. rewrite Hin, Hp.
    destruct (prop (<["tolerance":=VUndefined]> o) "ignoreAntialiasing");
      rewrite ?prop_insert_ne by done; apply prop_insert_eq. }
  split; [|split; [exact Hp'|split]].
  - rewrite (getToleranceFromOpts_run l w o Ho). unfold conflicting.
    by rewrite Hs, andb_false_r, Hin, Hp.
  - intros data. rewrite Hp', perceptual_unfold. cbn [to_number].
    destruct (diff _ _); cbn [num_lt]; by rewrite orb_false_r.
  - intros c1 c2. unfold colors. eff_unfold. rewrite Ho. cbn. rewrite Hp. cbn.
    rewrite lookup_insert_eq. cbn. by rewrite prop_insert_eq.
Qed.

(** Property X14: the perceptual comparator only grows with the tolerance: colors
    that look the same at one tolerance look the same at every larger one. *)
Theorem tolerance_is_monotone (t1 t2 : number) (data : Data) :
  num_lt t1 t2 = true →
  makeCIEDE2000Comparator (VNum t1) data = true →
  makeCIEDE2000Comparator (VNum t2) data = true.
Proof.
  intros Hlt. rewrite !perceptual_unfold. cbn [to_number].
  destruct (areColorsSame data); [done|]. cbn [orb]. intros Hd.
  by apply (num_lt_trans _ t1).
Qed.

(** Property X15: [colors] supplies the default itself and writes it back: given an
    options object whose [tolerance] is absent or undefined, it compares at
    2.3 and leaves [tolerance: 2.3] in that object; it throws nothing and
    reads no image. *)
Theorem colors_writes_the_default (c1 c2 : Color) (l : loc) (w : world) (o : object) :
  heap w !! l = Some o → prop o "tolerance" = VUndefined →
  colors c1 c2 (Some l) w =
    (Done (makeCIEDE2000Comparator (VNum JND) (mkData c1 c2 None)),
     mkWorld (<[l := <["tolerance" := VNum JND]> o]> (heap w)) (events w)).
Proof.
  intros Ho Hp. unfold colors. eff_unfold. rewrite Ho. cbn. rewrite Hp. cbn.
  rewrite lookup_insert_eq. cbn. by rewrite prop_insert_eq, Ho.
Qed.

(** Property X16: a color always looks the same as itself: [colors(c, c, opts)] is
    true for every options object, whatever its tolerance, and for no
    options at all. *)
Theorem colors_is_reflexive (c : Color) (opts : option loc) (w : world) :
  (colors c c opts w).1 = Done true.
Proof.
  assert (∀ t, makeCIEDE2000Comparator t (mkData c c None) = true) as Hsame.
  { intros t. by rewrite perceptual_unfold, exact_match_reflexive. }
  unfold colors. destruct opts as [l|]; eff_unfold.
  - destruct (prop (default ∅ (heap w !! l)) "tolerance"); cbn; by rewrite Hsame.
  - unfold newObject. cbn. rewrite lookup_insert_eq. cbn.
    destruct (prop ∅ "tolerance"); cbn; by rewrite Hsame.
Qed.

End Tolerances.

(** ** The bounding box *)

Lemma Math_min_same_elements (l1 l2 : list Z) :
  (∀ z, z ∈ l1 ↔ z ∈ l2) →
  Math_min (num_of_Z <$> l1) = Math_min (num_of_Z <$> l2).
Proof.
  intros Hsame. destruct l1 as [|z1 l1], l2 as [|z2 l2]; [done| | |].
  - exfalso. apply (not_elem_of_nil z2), Hsame. set_solver.
  - exfalso. apply (not_elem_of_nil z1), Hsame. set_solver.
  - destruct (Math_min_of_Z z1 l1) as (m1 & -> & Hin1 & Hle1).
    destruct (Math_min_of_Z z2 l2) as (m2 & -> & Hin2 & Hle2).
    f_equal. apply Z.le_antisymm.
    + apply Hle1, Hsame, Hin2.
    + apply Hle2, Hsame, Hin1.
Qed.

Lemma Math_max_same_elements (l1 l2 : list Z) :
  (∀ z, z ∈ l1 ↔ z ∈ l2) →
  Math_max (num_of_Z <$> l1) = Math_max (num_of_Z <$> l2).
Proof.
  intros Hsame. destruct l1 as [|z1 l1], l2 as [|z2 l2]; [done| | |].
  - exfalso. apply (not_elem_of_nil z2), Hsame. set_solver.
  - exfalso. apply (not_elem_of_nil z1), Hsame. set_solver.
  - destruct (Math_max_of_Z z1 l1) as (m1 & -> & Hin1 & Hle1).
    destruct (Math_max_of_Z z2 l2) as (m2 & -> & Hin2 & Hle2).
    f_equal. apply Z.le_antisymm.
    + apply Hle2, Hsame, Hin1.
    + apply Hle1, Hsame, Hin2.
Qed.

(** Property X17: the rectangle depends on the set of coordinates only, not on their
    order nor on repetitions. *)
Theorem getDiffArea_ignores_order (coords coords' : list (Z * Z)) :
  (∀ c, c ∈ coords ↔ c ∈ coords') → getDiffArea coords = getDiffArea coords'.
Proof.
  intros Hsame.
  assert (∀ z, z ∈ coords.*1 ↔ z ∈ coords'.*1) as Hx.
  { intros z. rewrite !list_elem_of_fmap. split; intros (c & -> & Hc); exists c;
      (split; [done|]); by apply Hsame. }
  assert (∀ z, z ∈ coords.*2 ↔ z ∈ coords'.*2) as Hy.
  { intros z. rewrite !list_elem_of_fmap. split; intros (c & -> & Hc); exists c;
      (split; [done|]); by apply Hsame. }
  unfold getDiffArea. cbn zeta.
  assert (∀ l : list (Z * Z), (λ k : Z * Z, num_of_Z k.1) <$> l = num_of_Z <$> l.*1)
    as E1 by (intros; by rewrite <- list_fmap_compose).
  assert (∀ l : list (Z * Z), (λ k : Z * Z, num_of_Z k.2) <$> l = num_of_Z <$> l.*2)
    as E2 by (intros; by rewrite <- list_fmap_compose).
  rewrite !E1, !E2.
  by rewrite (Math_min_same_elements _ _ Hx), (Math_max_same_elements _ _ Hx),
    (Math_min_same_elements _ _ Hy), (Math_max_same_elements _ _ Hy).
Qed.

(** Property X18: for coordinates taken from a [w] by [h] raster, and at least one
    of them, the rectangle has whole-numbered, finite fields, is at least
    one pixel wide and high, and lies within the raster. *)
Theorem getDiffArea_stays_within (coords : list (Z * Z)) (w h : Z) :
  coords ≠ [] →
  (∀ c, c ∈ coords → 0 ≤ c.1 < w ∧ 0 ≤ c.2 < h) →
  ∃ left top width height : Z,
    getDiffArea coords =
      Rect.mk (num_of_Z left) (num_of_Z top) (num_of_Z width) (num_of_Z height) ∧
    0 ≤ left ∧ 0 ≤ top ∧ 1 ≤ width ∧ 1 ≤ height ∧
    left + width ≤ w ∧ top + height ≤ h.
Proof.
  intros Hne Hin.
  destruct (getDiffArea_bounding coords Hne)
    as (left & right & top & bottom & -> & Hcover & Hl & Hr & Ht & Hb).
  apply list_elem_of_fmap in Hl as (cl & -> & Hcl).
  apply list_elem_of_fmap in Hr as (cr & -> & Hcr).
  apply list_elem_of_fmap in Ht as (ct & -> & Hct).
  apply list_elem_of_fmap in Hb as (cb & -> & Hcb).
  pose proof (Hin cl Hcl). pose proof (Hin cr Hcr).
  pose proof (Hin ct Hct). pose proof (Hin cb Hcb).
  pose proof (Hcover cl Hcl). pose proof (Hcover ct Hct).
  eexists _, _, _, _. split; [reflexivity|]. lia.
Qed.

(** Property X19: the degenerate inputs.  Without a coordinate, the rectangle has
    [left] and [top] at [Infinity] and [width] and [height] at [-Infinity];
    for one coordinate it is that pixel, one wide and one high. *)
Theorem getDiffArea_degenerate :
  getDiffArea [] = Rect.mk Infinity Infinity NegInfinity NegInfinity ∧
  ∀ x y, getDiffArea [(x, y)] = Rect.mk (num_of_Z x) (num_of_Z y) (Finite 1) (Finite 1).
Proof.
  split; [reflexivity|]. intros x y.
  destruct (getDiffArea_bounding [(x, y)])
    as (left & right & top & bottom & -> & _ & Hl & Hr & Ht & Hb); [done|].
  cbn in Hl, Hr, Ht, Hb.
  apply list_elem_of_singleton in Hl as ->, Hr as ->, Ht as ->, Hb as ->.
  by rewrite !Z.sub_diag.
Qed.

(** ** The further properties at sample inputs *)

(** Replaces a closed term by its value. *)
Ltac evaluate t :=
  let v := eval vm_compute in t in
  let H := fresh in
  assert (t = v) as H by (vm_compute; reflexivity); rewrite H; clear H.

(** The [diffOptions] that [createDiff] builds from a sample request. *)
Ltac sample_diffOptions o :=
  unfold createDiff_diffOptions, parseColorString;
  evaluate (parseColor (Host := Sample.host) (prop o "highlightColor"));
  evaluate (truthy (prop o "strict"));
  evaluate (hasIn o "tolerance");
  reflexivity.

Lemma strict_options_serve_once_witness :
  let w' := (looksSame (CD := Sample.colorDiff) (JS := Sample.engine) (W := Sample.wrappers)
               (Hst := Sample.host) (VStr "black-1x1") (VStr "black-1x1")
               (Some 1%positive) (Sample.worldWith Requests.strictOnly)).2 in
  createDiff (CD := Sample.colorDiff) (JS := Sample.engine) (Hst := Sample.host) 1%positive w' =
    (Thrown (TypeError strict_and_tolerance), w').
Proof.
  pose proof (strict_options_serve_once (CD := Sample.colorDiff) (JS := Sample.engine) (W := Sample.wrappers)
                (Hst := Sample.host) (VStr "black-1x1") (VStr "black-1x1") 1%positive
                (Sample.worldWith Requests.strictOnly) Requests.strictOnly
                ltac:(vm_compute; reflexivity) ltac:(vm_compute; reflexivity)
                ltac:(vm_compute; reflexivity)) as H.
  cbn zeta in H. apply H.
Defined.

Lemma options_are_reusable_witness :
  let w' := (looksSame (CD := Sample.colorDiff) (JS := Sample.engine) (W := Sample.wrappers)
               (Hst := Sample.host) (VStr "black-1x1") (VStr "black-1x1")
               (Some 1%positive) (Sample.worldWith ∅)).2 in
  heap (looksSame (CD := Sample.colorDiff) (JS := Sample.engine) (W := Sample.wrappers) (Hst := Sample.host)
          (VStr "black-2x1") (VStr "white-2x1") (Some 1%positive) w').2 = heap w'.
Proof.
  pose proof (options_are_reusable (CD := Sample.colorDiff) (JS := Sample.engine) (W := Sample.wrappers)
                (Hst := Sample.host) (VStr "black-1x1") (VStr "black-1x1")
                (VStr "black-2x1") (VStr "white-2x1") 1%positive
                (Sample.worldWith ∅) ∅
                ltac:(vm_compute; reflexivity) ltac:(vm_compute; reflexivity)) as H.
  cbn zeta in H. apply H.
Defined.


Lemma createDiff_saves_only_a_difference_witness :
  let o := Requests.blackWhite in
  let w := Sample.worldWith o in
  let read := ReadPair (prop o "reference") (prop o "current") in
  ∃ image equal ignored,
    buildDiffImage (Sample.solid 2 1 Sample.black) (Sample.solid 2 1 Sample.white)
      (mkDiffOptions Sample.pink
         (makeCIEDE2000Comparator (CD := Sample.colorDiff) (JS := Sample.engine)
            (VNum JND)) None) =
      Some (image, equal, ignored) ∧
    createDiff (CD := Sample.colorDiff) (JS := Sample.engine) (Hst := Sample.host)
      1%positive w =
      if equal
      then (Done (Resolved true (Some ignored)),
            mkWorld (heap w) (events w ++ [read]))
      else (Done (match save (Host := Sample.host) image (prop o "diff") with
                  | Some error => Rejected error
                  | None => Resolved false None
                  end),
            mkWorld (heap w) (events w ++ [read; Save (prop o "diff")])).
Proof.
  exact (createDiff_saves_only_a_difference (CD := Sample.colorDiff)
           (JS := Sample.engine) (Hst := Sample.host)
           1%positive (Sample.worldWith Requests.blackWhite) Requests.blackWhite
           (mkPair (Sample.solid 2 1 Sample.black) (Sample.solid 2 1 Sample.white))
           (mkDiffOptions Sample.pink
              (makeCIEDE2000Comparator (CD := Sample.colorDiff) (JS := Sample.engine)
                 (VNum JND)) None)
           ltac:(vm_compute; reflexivity) ltac:(vm_compute; reflexivity)
           ltac:(vm_compute; reflexivity) ltac:(vm_compute; reflexivity)
           ltac:(sample_diffOptions Requests.blackWhite)).
Defined.

Lemma createDiff_leaves_the_options_witness :
  heap (createDiff (CD := Sample.colorDiff) (JS := Sample.engine) (Hst := Sample.host) 1%positive
          (Sample.worldWith Requests.blackWhite)).2 =
  heap (Sample.worldWith Requests.blackWhite).
Proof.
  apply (createDiff_leaves_the_options (CD := Sample.colorDiff) (JS := Sample.engine) (Hst := Sample.host)
           1%positive (Sample.worldWith Requests.blackWhite) Requests.blackWhite).
  vm_compute; reflexivity.
Defined.


Lemma a_pair_masks_itself_witness :
  ∃ ignored,
    (createDiff (CD := Sample.colorDiff) (JS := Sample.engine) (Hst := Sample.host) 1%positive
       (Requests.worldWithMask Requests.blackWhite)).1 =
    Done (Resolved true (Some ignored)).
Proof.
  destruct (a_pair_masks_itself (CD := Sample.colorDiff) (JS := Sample.engine) (Hst := Sample.host)
              1%positive 2%positive (Requests.worldWithMask Requests.blackWhite)
              Requests.masked Requests.blackWhite
              (mkPair (Sample.solid 2 1 Sample.black) (Sample.solid 2 1 Sample.white))
              (mkDiffOptions Sample.pink
                 (makeCIEDE2000Comparator (CD := Sample.colorDiff) (JS := Sample.engine) (VNum JND)) None)
              ltac:(vm_compute; reflexivity) ltac:(vm_compute; reflexivity)
              ltac:(vm_compute; reflexivity) ltac:(vm_compute; reflexivity)
              ltac:(vm_compute; reflexivity) ltac:(vm_compute; reflexivity)
              ltac:(reflexivity) ltac:(reflexivity)
              ltac:(cbn; lia) ltac:(cbn; lia)
              ltac:(sample_diffOptions Requests.masked))
    as (ignored & Hrun & _).
  exists ignored. by rewrite Hrun.
Defined.


Lemma undefined_tolerance_is_exact_match_witness :
  getToleranceFromOpts 1%positive (Sample.worldWith Requests.undefinedTolerance) =
  (Done VUndefined, Sample.worldWith Requests.undefinedTolerance).
Proof.
  apply (undefined_tolerance_is_exact_match (CD := Sample.colorDiff) (JS := Sample.engine) 1%positive
           (Sample.worldWith Requests.undefinedTolerance) Requests.undefinedTolerance);
    vm_compute; reflexivity.
Defined.

Lemma tolerance_is_monotone_witness :
  makeCIEDE2000Comparator (CD := Sample.colorDiff) (JS := Sample.engine) (VNum (Finite 5))
    (mkData Sample.black Sample.nearBlack None) = true.
Proof.
  apply (tolerance_is_monotone (CD := Sample.colorDiff) (JS := Sample.engine) (Finite 4) (Finite 5));
    reflexivity.
Defined.

Lemma colors_writes_the_default_witness :
  colors (CD := Sample.colorDiff) (JS := Sample.engine) Sample.black Sample.nearBlack (Some 1%positive)
    (Sample.worldWith ∅) =
  (Done (makeCIEDE2000Comparator (CD := Sample.colorDiff) (JS := Sample.engine) (VNum JND)
           (mkData Sample.black Sample.nearBlack None)),
   mkWorld (<[1%positive := <["tolerance" := VNum JND]> ∅]> (heap (Sample.worldWith ∅)))
           (events (Sample.worldWith ∅))).
Proof.
  apply (colors_writes_the_default (CD := Sample.colorDiff) (JS := Sample.engine));
    vm_compute; reflexivity.
Defined.

Lemma getDiffArea_ignores_order_witness :
  getDiffArea [(2, 3); (5, 3)] = getDiffArea [(5, 3); (2, 3); (2, 3)].
Proof.
  apply getDiffArea_ignores_order. intros c. rewrite !elem_of_cons. tauto.
Defined.

Lemma getDiffArea_stays_within_witness :
  ∃ left top width height : Z,
    getDiffArea [(2, 3); (2, 4); (5, 3)] =
      Rect.mk (num_of_Z left) (num_of_Z top) (num_of_Z width) (num_of_Z height) ∧
    0 ≤ left ∧ 0 ≤ top ∧ 1 ≤ width ∧ 1 ≤ height ∧
    left + width ≤ 10 ∧ top + height ≤ 10.
Proof.
  apply getDiffArea_stays_within; [done|].
  intros c Hc. repeat (apply elem_of_cons in Hc as [->|Hc]); cbn; try lia.
  by apply elem_of_nil in Hc.
Defined.
